(** * Lifecycle hooks: [SpecialMemberHooks] and [ObjectLifetimeHook]

    A shallow embedding of [special_member_hooks.hpp] and
    [object_lifetime_hook.{hpp,cpp}].  Objects live in a store indexed by
    address, so that the guard [this != &other] of the assignment operators
    is a comparison of addresses.  Every special member function is a
    computation in a state-and-failure monad over that store; failure stands
    for behaviour the C++ program does not define (reading a dead object,
    constructing over a live one, calling an empty [std::function]). *)

From stdpp Require Import gmap strings list fin_maps.

Open Scope string_scope.
Open Scope list_scope.

(** Addresses of objects ([this], [&other]). *)
Definition addr := nat.

(** The six data members of [SpecialMemberHooks], as names. *)
Inductive Slot :=
| OnConstruct
| OnCopyConstruct
| OnMoveConstruct
| OnCopyAssign
| OnMoveAssign
| OnDestroy.

#[global] Instance Slot_eq_dec : EqDecision Slot.
Proof. solve_decision. Defined.

(** What an observer of the program sees: the lines handed to
    [global_logger->debug], and every call made through a [std::function]. *)
Inductive Event :=
| Debug (msg : string)
| Invoke (this : addr) (s : Slot)   (* [this->s()] in SpecialMemberHooks *)
| InvokeCreate (this : addr)        (* [on_create()] in the ObjectLifetimeHook constructor *)
| InvokeDestroy (this : addr).      (* [on_destroy_()] in ~ObjectLifetimeHook *)

#[global] Instance Event_eq_dec : EqDecision Event.
Proof. solve_decision. Defined.

Section Data.
Variables Callable Env : Type.

(** [std::function<void()>]: empty, or holding a callable target. *)
Definition std_function := option Callable.

(** [explicit operator bool] of [std::function]. *)
Definition has_target (f : std_function) : bool :=
  match f with Some _ => true | None => false end.

Record SpecialMemberHooks := {
  on_construct : std_function;
  on_copy_construct : std_function;
  on_move_construct : std_function;
  on_copy_assign : std_function;
  on_move_assign : std_function;
  on_destroy : std_function
}.

Record ObjectLifetimeHook := {
  on_destroy_ : std_function
}.

(** Every member default-constructed: six empty [std::function]s. *)
Definition default_initialized : SpecialMemberHooks :=
  {| on_construct := None; on_copy_construct := None; on_move_construct := None;
     on_copy_assign := None; on_move_assign := None; on_destroy := None |}.

(** Member access by name. *)
Definition get_slot (s : Slot) (h : SpecialMemberHooks) : std_function :=
  match s with
  | OnConstruct => on_construct h
  | OnCopyConstruct => on_copy_construct h
  | OnMoveConstruct => on_move_construct h
  | OnCopyAssign => on_copy_assign h
  | OnMoveAssign => on_move_assign h
  | OnDestroy => on_destroy h
  end.

Definition set_slot (s : Slot) (f : std_function) (h : SpecialMemberHooks)
  : SpecialMemberHooks :=
  match s with
  | OnConstruct =>
      {| on_construct := f; on_copy_construct := on_copy_construct h;
         on_move_construct := on_move_construct h; on_copy_assign := on_copy_assign h;
         on_move_assign := on_move_assign h; on_destroy := on_destroy h |}
  | OnCopyConstruct =>
      {| on_construct := on_construct h; on_copy_construct := f;
         on_move_construct := on_move_construct h; on_copy_assign := on_copy_assign h;
         on_move_assign := on_move_assign h; on_destroy := on_destroy h |}
  | OnMoveConstruct =>
      {| on_construct := on_construct h; on_copy_construct := on_copy_construct h;
         on_move_construct := f; on_copy_assign := on_copy_assign h;
         on_move_assign := on_move_assign h; on_destroy := on_destroy h |}
  | OnCopyAssign =>
      {| on_construct := on_construct h; on_copy_construct := on_copy_construct h;
         on_move_construct := on_move_construct h; on_copy_assign := f;
         on_move_assign := on_move_assign h; on_destroy := on_destroy h |}
  | OnMoveAssign =>
      {| on_construct := on_construct h; on_copy_construct := on_copy_construct h;
         on_move_construct := on_move_construct h; on_copy_assign := on_copy_assign h;
         on_move_assign := f; on_destroy := on_destroy h |}
  | OnDestroy =>
      {| on_construct := on_construct h; on_copy_construct := on_copy_construct h;
         on_move_construct := on_move_construct h; on_copy_assign := on_copy_assign h;
         on_move_assign := on_move_assign h; on_destroy := f |}
  end.

(** The whole program state: the live objects of both classes, the
    observable trace, and [env], the state captured by user callbacks. *)
Record World := {
  hooks : gmap addr SpecialMemberHooks;
  lifetime_hooks : gmap addr ObjectLifetimeHook;
  trace : list Event;
  env : Env
}.

Definition with_hooks (m : gmap addr SpecialMemberHooks) (w : World) : World :=
  {| hooks := m; lifetime_hooks := lifetime_hooks w; trace := trace w; env := env w |}.

Definition with_lifetime_hooks (m : gmap addr ObjectLifetimeHook) (w : World) : World :=
  {| hooks := hooks w; lifetime_hooks := m; trace := trace w; env := env w |}.

Definition with_env (e : Env) (w : World) : World :=
  {| hooks := hooks w; lifetime_hooks := lifetime_hooks w; trace := trace w; env := e |}.

Definition log (ev : Event) (w : World) : World :=
  {| hooks := hooks w; lifetime_hooks := lifetime_hooks w;
     trace := trace w ++ [ev]; env := env w |}.

(** Computations: they thread the world and may be undefined. *)
Definition M (A : Type) : Type := World → option (A * World).

Definition ret {A} (a : A) : M A := λ w, Some (a, w).

Definition bind {A B} (c : M A) (k : A → M B) : M B :=
  λ w, match c w with
       | Some (a, w') => k a w'
       | None => None
       end.

Definition undefined {A} : M A := λ _, None.

End Data.

Arguments has_target {_} _.
Arguments on_construct {_} _.
Arguments on_copy_construct {_} _.
Arguments on_move_construct {_} _.
Arguments on_copy_assign {_} _.
Arguments on_move_assign {_} _.
Arguments on_destroy {_} _.
Arguments on_destroy_ {_} _.
Arguments Build_SpecialMemberHooks {_} _ _ _ _ _ _.
Arguments Build_ObjectLifetimeHook {_} _.
Arguments default_initialized {_}.
Arguments get_slot {_} _ _.
Arguments set_slot {_} _ _ _.
Arguments hooks {_ _} _.
Arguments lifetime_hooks {_ _} _.
Arguments trace {_ _} _.
Arguments env {_ _} _.
Arguments Build_World {_ _} _ _ _ _.
Arguments with_hooks {_ _} _ _.
Arguments with_lifetime_hooks {_ _} _ _.
Arguments with_env {_ _} _ _.
Arguments log {_ _} _ _.
Arguments ret {_ _ _} _ _.
Arguments bind {_ _ _ _} _ _ _.
Arguments undefined {_ _ _} _.

Declare Scope hook_scope.
Delimit Scope hook_scope with hook.
Notation "'let*' x ':=' c 'in' k" := (bind c (λ x, k))
  (at level 10, x name, c at level 100, k at level 200) : hook_scope.
Notation "c1 '>>' c2" := (bind c1 (λ _, c2))
  (at level 100, c2 at level 200, right associativity) : hook_scope.

(** What the C++ runtime contributes: how a call through a [std::function]
    target acts, and the state a [std::function] is left in after it has
    been moved from (valid, but not specified by the language; the results
    below hold for every choice).

    A target may inspect the whole world at the moment it is called (live
    objects, trace so far, captured state) and yields the new captured
    state, so what a target computes can depend on whether the members were
    already in place when it was called.  It does not write to hook
    objects or start transitions of its own: the header warns that
    modifying objects from inside a hook may be undefined, and the results
    below are about hooks that heed the warning. *)
Class Runtime (Callable Env : Type) := {
  call : Callable → World Callable Env → Env;
  moved_from : std_function Callable → std_function Callable
}.

Section Operations.
Context {Callable Env : Type} `{RT : !Runtime Callable Env}.
Local Open Scope hook_scope.

Local Abbreviation function := (std_function Callable).
Local Abbreviation Hooks := (SpecialMemberHooks Callable).
Local Abbreviation Comp := (M Callable Env).

(** Modelled from the spec: the logging sink [global_logger], declared in
    [sbpt_generated_includes.hpp], which is not part of the sources; it
    accepts a debug message and has no other effect on the program. *)
Definition debug (msg : string) : Comp unit :=
  λ w, Some (tt, log (Debug msg) w).

(** Reading the member [s] of the object at [a]. *)
Definition load (a : addr) (s : Slot) : Comp function :=
  λ w, match hooks w !! a with
       | Some h => Some (get_slot s h, w)
       | None => None
       end.

(** [a->s = f]: copy-assignment to a member. *)
Definition store (a : addr) (s : Slot) (f : function) : Comp unit :=
  λ w, match hooks w !! a with
       | Some h => Some (tt, with_hooks (<[a := set_slot s f h]> (hooks w)) w)
       | None => None
       end.

(** [std::move(a->s)] consumed by a move constructor or move assignment of
    [std::function]: the target is handed over, the member is left in its
    moved-from state. *)
Definition move_out (a : addr) (s : Slot) : Comp function :=
  let* f := load a s in
  store a s (moved_from f) >>
  ret f.

(** [f()]: calling a [std::function]; calling an empty one is an error. *)
Definition call_function (ev : Event) (f : function) : Comp unit :=
  match f with
  | Some g => λ w, let w1 := log ev w in Some (tt, with_env (call g w1) w1)
  | None => undefined
  end.

(** [if (s) s();] on the members of [this]. *)
Definition fire (this : addr) (s : Slot) : Comp unit :=
  let* f := load this s in
  if has_target f then
    let* g := load this s in
    call_function (Invoke this s) g
  else ret tt.

(** The end of a member-initialiser list: the object comes to life at
    [this], which must be storage that holds no live object. *)
Definition emplace (this : addr) (h : Hooks) : Comp unit :=
  λ w, match hooks w !! this with
       | Some _ => None
       | None => Some (tt, with_hooks (<[this := h]> (hooks w)) w)
       end.

(** The end of a destructor: the members are destroyed and the storage
    no longer holds an object. *)
Definition release (this : addr) : Comp unit :=
  λ w, match hooks w !! this with
       | Some _ => Some (tt, with_hooks (delete this (hooks w)) w)
       | None => None
       end.

(** [SpecialMemberHooks()] *)
Definition default_construct (this : addr) : Comp unit :=
  emplace this default_initialized >>
  debug "SpecialMemberHooks: default constructor called" >>
  fire this OnConstruct.

(** [SpecialMemberHooks(const SpecialMemberHooks &other)] *)
Definition copy_construct (this other : addr) : Comp unit :=
  let* f1 := load other OnConstruct in
  let* f2 := load other OnCopyConstruct in
  let* f3 := load other OnMoveConstruct in
  let* f4 := load other OnCopyAssign in
  let* f5 := load other OnMoveAssign in
  let* f6 := load other OnDestroy in
  emplace this
    {| on_construct := f1; on_copy_construct := f2; on_move_construct := f3;
       on_copy_assign := f4; on_move_assign := f5; on_destroy := f6 |} >>
  debug "SpecialMemberHooks: copy constructor called" >>
  fire this OnCopyConstruct.

(** [SpecialMemberHooks(SpecialMemberHooks &&other) noexcept] *)
Definition move_construct (this other : addr) : Comp unit :=
  let* f1 := move_out other OnConstruct in
  let* f2 := move_out other OnCopyConstruct in
  let* f3 := move_out other OnMoveConstruct in
  let* f4 := move_out other OnCopyAssign in
  let* f5 := move_out other OnMoveAssign in
  let* f6 := move_out other OnDestroy in
  emplace this
    {| on_construct := f1; on_copy_construct := f2; on_move_construct := f3;
       on_copy_assign := f4; on_move_assign := f5; on_destroy := f6 |} >>
  debug "SpecialMemberHooks: move constructor called" >>
  fire this OnMoveConstruct.

(** [a->s = other->s;] *)
Definition copy_member (this other : addr) (s : Slot) : Comp unit :=
  let* f := load other s in store this s f.

(** [a->s = std::move(other->s);] *)
Definition move_member (this other : addr) (s : Slot) : Comp unit :=
  let* f := move_out other s in store this s f.

(** [operator=(const SpecialMemberHooks &other)]; the result is the
    address of the object the returned reference denotes. *)
Definition copy_assign (this other : addr) : Comp addr :=
  debug "SpecialMemberHooks: copy assignment called" >>
  (if decide (this ≠ other) then
     copy_member this other OnConstruct >>
     copy_member this other OnCopyConstruct >>
     copy_member this other OnMoveConstruct >>
     copy_member this other OnCopyAssign >>
     copy_member this other OnMoveAssign >>
     copy_member this other OnDestroy >>
     fire this OnCopyAssign
   else ret tt) >>
  ret this.

(** [operator=(SpecialMemberHooks &&other) noexcept] *)
Definition move_assign (this other : addr) : Comp addr :=
  debug "SpecialMemberHooks: move assignment called" >>
  (if decide (this ≠ other) then
     move_member this other OnConstruct >>
     move_member this other OnCopyConstruct >>
     move_member this other OnMoveConstruct >>
     move_member this other OnCopyAssign >>
     move_member this other OnMoveAssign >>
     move_member this other OnDestroy >>
     fire this OnMoveAssign
   else ret tt) >>
  ret this.

(** [~SpecialMemberHooks()] *)
Definition destroy (this : addr) : Comp unit :=
  debug "SpecialMemberHooks: destructor called" >>
  fire this OnDestroy >>
  release this.

(** ** ObjectLifetimeHook *)

Definition emplace_lifetime (this : addr) (o : ObjectLifetimeHook Callable) : Comp unit :=
  λ w, match lifetime_hooks w !! this with
       | Some _ => None
       | None => Some (tt, with_lifetime_hooks (<[this := o]> (lifetime_hooks w)) w)
       end.

Definition load_on_destroy_ (this : addr) : Comp function :=
  λ w, match lifetime_hooks w !! this with
       | Some o => Some (on_destroy_ o, w)
       | None => None
       end.

Definition release_lifetime (this : addr) : Comp unit :=
  λ w, match lifetime_hooks w !! this with
       | Some _ => Some (tt, with_lifetime_hooks (delete this (lifetime_hooks w)) w)
       | None => None
       end.

(** [ObjectLifetimeHook::ObjectLifetimeHook(on_create, on_destroy)];
    the two arguments are passed by value. *)
Definition lifetime_construct (this : addr) (on_create on_destroy : function) : Comp unit :=
  emplace_lifetime this {| on_destroy_ := on_destroy |} >>
  if has_target on_create then call_function (InvokeCreate this) on_create
  else ret tt.

(** [ObjectLifetimeHook::~ObjectLifetimeHook()] *)
Definition lifetime_destroy (this : addr) : Comp unit :=
  let* f := load_on_destroy_ this in
  (if has_target f then
     let* g := load_on_destroy_ this in
     call_function (InvokeDestroy this) g
   else ret tt) >>
  release_lifetime this.

(** The class declares neither a copy constructor nor a copy assignment
    operator, so the compiler supplies both, member-wise and with no call. *)
Definition lifetime_copy_construct (this other : addr) : Comp unit :=
  let* f := load_on_destroy_ other in
  emplace_lifetime this {| on_destroy_ := f |}.

Definition store_on_destroy_ (this : addr) (f : function) : Comp unit :=
  λ w, match lifetime_hooks w !! this with
       | Some _ =>
           Some (tt, with_lifetime_hooks
                       (<[this := {| on_destroy_ := f |}]> (lifetime_hooks w)) w)
       | None => None
       end.

Definition lifetime_copy_assign (this other : addr) : Comp addr :=
  let* f := load_on_destroy_ other in
  store_on_destroy_ this f >>
  ret this.

End Operations.

(** ** The six lifecycle transitions, uniformly *)

Inductive Transition :=
| DefaultConstruct
| CopyConstruct
| MoveConstruct
| CopyAssign
| MoveAssign
| Destroy.

(** The member each special member function tests and calls. *)
Definition slot_of (t : Transition) : Slot :=
  match t with
  | DefaultConstruct => OnConstruct
  | CopyConstruct => OnCopyConstruct
  | MoveConstruct => OnMoveConstruct
  | CopyAssign => OnCopyAssign
  | MoveAssign => OnMoveAssign
  | Destroy => OnDestroy
  end.

(** The line each special member function hands to the logger. *)
Definition message (t : Transition) : string :=
  match t with
  | DefaultConstruct => "SpecialMemberHooks: default constructor called"
  | CopyConstruct => "SpecialMemberHooks: copy constructor called"
  | MoveConstruct => "SpecialMemberHooks: move constructor called"
  | CopyAssign => "SpecialMemberHooks: copy assignment called"
  | MoveAssign => "SpecialMemberHooks: move assignment called"
  | Destroy => "SpecialMemberHooks: destructor called"
  end.

Section Transitions.
Context {Callable Env : Type} `{RT : !Runtime Callable Env}.
Local Open Scope hook_scope.

Definition run (t : Transition) (this other : addr) : M Callable Env unit :=
  match t with
  | DefaultConstruct => default_construct this
  | CopyConstruct => copy_construct this other
  | MoveConstruct => move_construct this other
  | CopyAssign => copy_assign this other >> ret tt
  | MoveAssign => move_assign this other >> ret tt
  | Destroy => destroy this
  end.

(** When the language lets the transition happen: a constructor runs on
    storage holding no live object, everything else on live objects. *)
Definition ready (t : Transition) (this other : addr) (w : World Callable Env) : Prop :=
  match t with
  | DefaultConstruct => hooks w !! this = None
  | CopyConstruct | MoveConstruct => hooks w !! this = None ∧ is_Some (hooks w !! other)
  | CopyAssign | MoveAssign => is_Some (hooks w !! this) ∧ is_Some (hooks w !! other)
  | Destroy => is_Some (hooks w !! this)
  end.

(** The target the transition finds in the matching member of [this] when
    it reaches its test, read off the world the transition starts from. *)
Definition armed (t : Transition) (this other : addr) (w : World Callable Env)
  : std_function Callable :=
  match t with
  | DefaultConstruct => None
  | CopyConstruct | MoveConstruct => hooks w !! other ≫= get_slot (slot_of t)
  | CopyAssign | MoveAssign =>
      if decide (this = other) then None
      else hooks w !! other ≫= get_slot (slot_of t)
  | Destroy => hooks w !! this ≫= get_slot (slot_of t)
  end.

(** The world after the target [g] has been called: the call is recorded
    and the target acts on the world it finds. *)
Definition after_call (ev : Event) (g : Callable) (w : World Callable Env)
  : World Callable Env :=
  let w1 := log ev w in with_env (call g w1) w1.

(** The world after [if (f) f();]. *)
Definition after_guarded_call (ev : Event) (f : std_function Callable)
    (w : World Callable Env) : World Callable Env :=
  match f with
  | Some g => after_call ev g w
  | None => w
  end.

(** The world after [if (s) s();] when member [s] of [this] holds [f]. *)
Definition after_fire (this : addr) (s : Slot) (f : std_function Callable)
    (w : World Callable Env) : World Callable Env :=
  after_guarded_call (Invoke this s) f w.

(** An object all of whose members have been moved from. *)
Definition moved_hooks (h : SpecialMemberHooks Callable) : SpecialMemberHooks Callable :=
  {| on_construct := moved_from (on_construct h);
     on_copy_construct := moved_from (on_copy_construct h);
     on_move_construct := moved_from (on_move_construct h);
     on_copy_assign := moved_from (on_copy_assign h);
     on_move_assign := moved_from (on_move_assign h);
     on_destroy := moved_from (on_destroy h) |}.

(** How often the destroy-callback of the [ObjectLifetimeHook] at [this]
    has been called so far, and likewise its create-callback. *)
Definition destroy_calls (this : addr) (tr : list Event) : nat :=
  length (filter (λ e, e = InvokeDestroy this) tr).

Definition create_calls (this : addr) (tr : list Event) : nat :=
  length (filter (λ e, e = InvokeCreate this) tr).

(** The scenario of the specification: [a] gets [on_move_assign = inc],
    [b] is default-constructed, then [b = std::move(a)]. *)
Definition move_assign_scenario (a b : addr) (inc : Callable) : M Callable Env addr :=
  default_construct a >>
  store a OnMoveAssign (Some inc) >>
  default_construct b >>
  move_assign b a.

End Transitions.

(** ** Programs over both classes

    A client of the two classes does nothing to their objects but run the
    special member functions and, for [SpecialMemberHooks], assign to the
    public members. *)

Inductive Step (Callable : Type) :=
| Do (t : Transition) (this other : addr)
| Assign (a : addr) (s : Slot) (f : std_function Callable)   (* [a.s = f;] *)
| LConstruct (this : addr) (on_create on_destroy : std_function Callable)
| LCopy (this other : addr)
| LAssign (this other : addr)
| LDestroy (this : addr).

Arguments Do {_} _ _ _.
Arguments Assign {_} _ _ _.
Arguments LConstruct {_} _ _ _.
Arguments LCopy {_} _ _.
Arguments LAssign {_} _ _.
Arguments LDestroy {_} _.

(** The calls an [if (s) s();] adds to the trace when the member holds [f]. *)
Definition fired {Callable} (ev : Event) (f : std_function Callable) : list Event :=
  if has_target f then [ev] else [].

Definition is_debug (e : Event) : bool :=
  match e with Debug _ => true | _ => false end.

Definition is_invoke (e : Event) : bool :=
  match e with Invoke _ _ => true | _ => false end.

(** Lines written to the logger, and calls made through members of
    [SpecialMemberHooks], in a trace. *)
Definition debug_lines (tr : list Event) : nat :=
  length (filter (λ e, is_debug e) tr).

Definition hook_calls (tr : list Event) : nat :=
  length (filter (λ e, is_invoke e) tr).

Section Programs.
Context {Callable Env : Type} `{RT : !Runtime Callable Env}.
Local Open Scope hook_scope.

Definition step (st : Step Callable) : M Callable Env unit :=
  match st with
  | Do t this other => run t this other
  | Assign a s f => store a s f
  | LConstruct this c d => lifetime_construct this c d
  | LCopy this other => lifetime_copy_construct this other
  | LAssign this other => lifetime_copy_assign this other >> ret tt
  | LDestroy this => lifetime_destroy this
  end.

Fixpoint exec (p : list (Step Callable)) : M Callable Env unit :=
  match p with
  | [] => ret tt
  | st :: p' => step st >> exec p'
  end.

(** How many special member functions of [SpecialMemberHooks] a program
    runs. *)
Definition is_transition (st : Step Callable) : bool :=
  match st with Do _ _ _ => true | _ => false end.

(** The constructions, and the destructions, of the [ObjectLifetimeHook]
    at [a]. *)
Definition is_construction_of (a : addr) (st : Step Callable) : bool :=
  match st with LConstruct this _ _ => bool_decide (this = a) | _ => false end.

Definition is_destruction_of (a : addr) (st : Step Callable) : bool :=
  match st with LDestroy this => bool_decide (this = a) | _ => false end.

Definition transitions_in (p : list (Step Callable)) : nat :=
  length (filter (λ st, is_transition st) p).

Definition constructions_of (a : addr) (p : list (Step Callable)) : nat :=
  length (filter (λ st, is_construction_of a st) p).

Definition destructions_of (a : addr) (p : list (Step Callable)) : nat :=
  length (filter (λ st, is_destruction_of a st) p).

End Programs.

(** ** A concrete runtime, for running the model

    The captured state is one counter.  [Bump n] adds [n] to it;
    [BumpIfSet a s] adds one only if member [s] of the object at [a] holds a
    target when the call is made.  A moved-from [std::function] is empty, as
    in the usual standard libraries. *)
Inductive Action :=
| Bump (n : nat)
| BumpIfSet (a : addr) (s : Slot).

Definition counting_call (g : Action) (w : World Action nat) : nat :=
  match g with
  | Bump n => env w + n
  | BumpIfSet a s =>
      match hooks w !! a with
      | Some h => if has_target (get_slot s h) then env w + 1 else env w
      | None => env w
      end
  end.

#[global] Instance counting : Runtime Action nat := {
  call := counting_call;
  moved_from := λ _, None
}.

(** A runtime whose moved-from [std::function] keeps its target, which the
    language also allows. *)
Definition lazy_move : Runtime Action nat := {|
  call := counting_call;
  moved_from := λ f, f
|}.

(** Sample worlds.  [sample] has a target in every member; the targets of
    [on_copy_construct], [on_move_construct], [on_copy_assign] and
    [on_move_assign] look at the object at address [2] when they are
    called. *)
Definition sample : SpecialMemberHooks Action :=
  {| on_construct := Some (Bump 32);
     on_copy_construct := Some (BumpIfSet 2 OnConstruct);
     on_move_construct := Some (BumpIfSet 2 OnCopyConstruct);
     on_copy_assign := Some (BumpIfSet 2 OnDestroy);
     on_move_assign := Some (BumpIfSet 2 OnMoveAssign);
     on_destroy := Some (Bump 16) |}.

Definition start : World Action nat :=
  {| hooks := ∅; lifetime_hooks := ∅; trace := []; env := 0 |}.

(** One live object, at address [1]. *)
Definition one_object : World Action nat :=
  {| hooks := <[1 := sample]> ∅; lifetime_hooks := ∅; trace := []; env := 0 |}.

(** Two live objects: [sample] at [1], an empty one at [2]. *)
Definition two_objects : World Action nat :=
  {| hooks := <[2 := default_initialized]> (<[1 := sample]> ∅);
     lifetime_hooks := ∅; trace := []; env := 0 |}.

(** One live [ObjectLifetimeHook], at address [5]. *)
Definition one_lifetime_hook : World Action nat :=
  {| hooks := ∅; lifetime_hooks := <[5 := {| on_destroy_ := Some (Bump 3) |}]> ∅;
     trace := []; env := 0 |}.

(** What a run leaves to look at: the result, the counter and the trace. *)
Definition observe {A} (r : option (A * World Action nat)) : option (A * nat * list Event) :=
  match r with
  | Some (x, w) => Some (x, env w, trace w)
  | None => None
  end.

(** The world a run ends in ([start] if it is undefined). *)
Definition outcome {A} (r : option (A * World Action nat)) : World Action nat :=
  match r with
  | Some (_, w) => w
  | None => start
  end.

(** Two live [ObjectLifetimeHook]s, at [5] and [6]. *)
Definition two_lifetime_hooks : World Action nat :=
  {| hooks := ∅;
     lifetime_hooks := <[6 := {| on_destroy_ := Some (Bump 4) |}]>
                         (<[5 := {| on_destroy_ := Some (Bump 3) |}]> ∅);
     trace := []; env := 0 |}.

(** A program that visits every kind of step. *)
Definition sample_program : list (Step Action) :=
  [ Do DefaultConstruct 1 1;
    Assign 1 OnConstruct (Some (Bump 32));
    Assign 1 OnCopyConstruct (Some (Bump 1));
    Assign 1 OnDestroy (Some (Bump 16));
    Do CopyConstruct 2 1;
    Do DefaultConstruct 3 3;
    Do CopyAssign 3 2;
    Do CopyAssign 3 3;
    Do MoveConstruct 4 3;
    Do MoveAssign 3 4;
    LConstruct 5 (Some (Bump 2)) (Some (Bump 3));
    LCopy 6 5;
    LAssign 6 5;
    LDestroy 5;
    LDestroy 6;
    Do Destroy 4 4;
    Do Destroy 3 3;
    Do Destroy 2 2;
    Do Destroy 1 1 ].

(** * Results *)

Section Proofs.
Context {Callable Env : Type} `{RT : !Runtime Callable Env}.
Implicit Types (w : World Callable Env) (h S T : SpecialMemberHooks Callable).
Implicit Types (this other a : addr) (s : Slot) (f : std_function Callable).
Local Open Scope hook_scope.

(** ** Running the primitives *)

Lemma bind_run {A B} (c : M Callable Env A) (k : A → M Callable Env B) w x w1 :
  c w = Some (x, w1) → bind c k w = k x w1.
Proof. intros E. unfold bind. by rewrite E. Qed.

Lemma load_run a s w h :
  hooks w !! a = Some h → load a s w = Some (get_slot s h, w).
Proof. intros E. unfold load. by rewrite E. Qed.

Lemma store_run a s f w h :
  hooks w !! a = Some h →
  store a s f w = Some (tt, with_hooks (<[a := set_slot s f h]> (hooks w)) w).
Proof. intros E. unfold store. by rewrite E. Qed.

Lemma move_out_run a s w h :
  hooks w !! a = Some h →
  move_out a s w =
    Some (get_slot s h,
          with_hooks (<[a := set_slot s (moved_from (get_slot s h)) h]> (hooks w)) w).
Proof.
  intros E. unfold move_out.
  rewrite (bind_run _ _ _ _ _ (load_run _ s _ _ E)).
  by rewrite (bind_run _ _ _ _ _ (store_run _ s _ _ _ E)).
Qed.

Lemma emplace_run this h w :
  hooks w !! this = None →
  emplace this h w = Some (tt, with_hooks (<[this := h]> (hooks w)) w).
Proof. intros E. unfold emplace. by rewrite E. Qed.

Lemma release_run this h w :
  hooks w !! this = Some h →
  release this w = Some (tt, with_hooks (delete this (hooks w)) w).
Proof. intros E. unfold release. by rewrite E. Qed.

Lemma fire_run this s w h :
  hooks w !! this = Some h →
  fire this s w = Some (tt, after_fire this s (get_slot s h) w).
Proof.
  intros E. unfold fire.
  rewrite (bind_run _ _ _ _ _ (load_run _ s _ _ E)).
  destruct (get_slot s h) as [g|] eqn:G; simpl; [|done].
  rewrite (bind_run _ _ _ _ _ (load_run _ s _ _ E)).
  by rewrite G.
Qed.

Lemma copy_member_run this other s w S T :
  hooks w !! other = Some S → hooks w !! this = Some T →
  copy_member this other s w =
    Some (tt, with_hooks (<[this := set_slot s (get_slot s S) T]> (hooks w)) w).
Proof.
  intros ES ET. unfold copy_member.
  rewrite (bind_run _ _ _ _ _ (load_run _ s _ _ ES)).
  by apply store_run.
Qed.

Lemma move_member_run this other s w S T :
  this ≠ other → hooks w !! other = Some S → hooks w !! this = Some T →
  move_member this other s w =
    Some (tt, with_hooks
                (<[this := set_slot s (get_slot s S) T]>
                   (<[other := set_slot s (moved_from (get_slot s S)) S]> (hooks w))) w).
Proof.
  intros Hne ES ET. unfold move_member.
  rewrite (bind_run _ _ _ _ _ (move_out_run _ s _ _ ES)).
  rewrite (store_run _ _ _ _ T); [done|].
  simpl. by rewrite lookup_insert_ne.
Qed.

(** ** Facts about the data *)

Lemma rebuild_hooks S :
  {| on_construct := on_construct S; on_copy_construct := on_copy_construct S;
     on_move_construct := on_move_construct S; on_copy_assign := on_copy_assign S;
     on_move_assign := on_move_assign S; on_destroy := on_destroy S |} = S.
Proof. by destruct S. Qed.

Lemma insert_pair_absorb {V} (m : gmap addr V) this other (x x' y y' : V) :
  this ≠ other →
  <[this := x]> (<[other := y]> (<[this := x']> (<[other := y']> m)))
  = <[this := x]> (<[other := y]> m).
Proof.
  intros Hne. apply map_eq. intros i.
  destruct (decide (i = this)) as [->|]; [by rewrite !lookup_insert_eq|].
  destruct (decide (i = other)) as [->|]; by simplify_map_eq.
Qed.

(** ** Running the special member functions *)

Lemma default_construct_run this w :
  hooks w !! this = None →
  default_construct this w =
    Some (tt, log (Debug (message DefaultConstruct))
                (with_hooks (<[this := default_initialized]> (hooks w)) w)).
Proof.
  intros E. unfold default_construct.
  rewrite (bind_run _ _ _ _ _ (emplace_run _ _ _ E)).
  erewrite bind_run; [|done].
  by rewrite (fire_run _ _ _ default_initialized) by apply lookup_insert_eq.
Qed.

Lemma copy_construct_run this other w S :
  hooks w !! this = None → hooks w !! other = Some S →
  copy_construct this other w =
    Some (tt, after_fire this OnCopyConstruct (on_copy_construct S)
                (log (Debug (message CopyConstruct))
                   (with_hooks (<[this := S]> (hooks w)) w))).
Proof.
  intros E ES. unfold copy_construct.
  do 6 rewrite (bind_run _ _ _ _ _ (load_run _ _ _ _ ES)).
  simpl. rewrite rebuild_hooks.
  rewrite (bind_run _ _ _ _ _ (emplace_run _ _ _ E)).
  erewrite bind_run; [|done].
  by rewrite (fire_run _ _ _ S) by apply lookup_insert_eq.
Qed.

Lemma move_construct_run this other w S :
  hooks w !! this = None → hooks w !! other = Some S →
  move_construct this other w =
    Some (tt, after_fire this OnMoveConstruct (on_move_construct S)
                (log (Debug (message MoveConstruct))
                   (with_hooks (<[this := S]> (<[other := moved_hooks S]> (hooks w))) w))).
Proof.
  intros E ES. unfold move_construct.
  assert (this ≠ other) as Hne by congruence.
  rewrite (bind_run _ _ _ _ _ (move_out_run _ _ _ _ ES)).
  do 5 (erewrite bind_run;
          [|apply move_out_run; simpl; apply lookup_insert_eq]).
  cbn [hooks with_hooks]. rewrite !insert_insert_eq.
  erewrite bind_run; cycle 1.
  { apply emplace_run. cbn [hooks with_hooks]. by rewrite lookup_insert_ne. }
  erewrite bind_run; [|done].
  erewrite fire_run by (cbn [hooks with_hooks log]; apply lookup_insert_eq).
  by destruct S.
Qed.

Lemma copy_assign_self this w :
  copy_assign this this w = Some (this, log (Debug (message CopyAssign)) w).
Proof.
  unfold copy_assign.
  erewrite bind_run; [|done].
  by rewrite decide_False by (intros Hne; by apply Hne).
Qed.

Lemma move_assign_self this w :
  move_assign this this w = Some (this, log (Debug (message MoveAssign)) w).
Proof.
  unfold move_assign.
  erewrite bind_run; [|done].
  by rewrite decide_False by (intros Hne; by apply Hne).
Qed.

Lemma copy_assign_distinct this other w S T :
  this ≠ other → hooks w !! other = Some S → hooks w !! this = Some T →
  copy_assign this other w =
    Some (this, after_fire this OnCopyAssign (on_copy_assign S)
                  (with_hooks (<[this := S]> (hooks w))
                     (log (Debug (message CopyAssign)) w))).
Proof.
  intros Hne ES ET. unfold copy_assign.
  erewrite bind_run; [|done].
  rewrite decide_True by done.
  erewrite bind_run; cycle 1.
  { erewrite bind_run; [|eapply copy_member_run; [exact ES|exact ET]].
    do 5 (erewrite bind_run;
            [|apply copy_member_run; simpl;
              [(rewrite !lookup_insert_ne by done); exact ES|apply lookup_insert_eq]]).
    apply fire_run. simpl. apply lookup_insert_eq. }
  simpl. rewrite !insert_insert_eq.
  by destruct S, T.
Qed.

Lemma move_assign_distinct this other w S T :
  this ≠ other → hooks w !! other = Some S → hooks w !! this = Some T →
  move_assign this other w =
    Some (this, after_fire this OnMoveAssign (on_move_assign S)
                  (with_hooks (<[this := S]> (<[other := moved_hooks S]> (hooks w)))
                     (log (Debug (message MoveAssign)) w))).
Proof.
  intros Hne ES ET. unfold move_assign.
  erewrite bind_run; [|done].
  rewrite decide_True by done.
  erewrite bind_run; cycle 1.
  { erewrite bind_run; [|eapply move_member_run; [exact Hne|exact ES|exact ET]].
    do 5 (erewrite bind_run;
            [|apply move_member_run; simpl;
              [done
              |(rewrite lookup_insert_ne by done); apply lookup_insert_eq
              |apply lookup_insert_eq]]).
    apply fire_run. simpl. apply lookup_insert_eq. }
  simpl. rewrite !insert_pair_absorb by done.
  by destruct S, T.
Qed.

Lemma destroy_run this w h :
  hooks w !! this = Some h →
  destroy this w =
    Some (tt, with_hooks (delete this (hooks w))
                (after_fire this OnDestroy (on_destroy h)
                   (log (Debug (message Destroy)) w))).
Proof.
  intros E. unfold destroy.
  erewrite bind_run; [|done].
  erewrite bind_run; [|apply fire_run; exact E].
  rewrite (release_run _ h) by (simpl; by destruct (on_destroy h)).
  simpl. by destruct (on_destroy h).
Qed.

(** ** Running the members of ObjectLifetimeHook *)

Lemma lifetime_construct_run this (c d : std_function Callable) w :
  lifetime_hooks w !! this = None →
  lifetime_construct this c d w =
    Some (tt, after_guarded_call (InvokeCreate this) c
                (with_lifetime_hooks
                   (<[this := {| on_destroy_ := d |}]> (lifetime_hooks w)) w)).
Proof.
  intros E. unfold lifetime_construct, bind, emplace_lifetime.
  rewrite E. by destruct c.
Qed.

Lemma lifetime_destroy_run this w (o : ObjectLifetimeHook Callable) :
  lifetime_hooks w !! this = Some o →
  lifetime_destroy this w =
    Some (tt, with_lifetime_hooks (delete this (lifetime_hooks w))
                (after_guarded_call (InvokeDestroy this) (on_destroy_ o) w)).
Proof.
  intros E. unfold lifetime_destroy, bind, load_on_destroy_, release_lifetime.
  rewrite E. destruct (on_destroy_ o) as [g|] eqn:G; simpl.
  - by rewrite E, G; simpl; rewrite E.
  - by rewrite E.
Qed.

Lemma lifetime_copy_construct_run this other w (o : ObjectLifetimeHook Callable) :
  lifetime_hooks w !! this = None → lifetime_hooks w !! other = Some o →
  lifetime_copy_construct this other w =
    Some (tt, with_lifetime_hooks (<[this := o]> (lifetime_hooks w)) w).
Proof.
  intros E EO. unfold lifetime_copy_construct, bind, load_on_destroy_, emplace_lifetime.
  rewrite EO, E. by destruct o.
Qed.

Lemma lifetime_copy_assign_run this other w (o o' : ObjectLifetimeHook Callable) :
  lifetime_hooks w !! this = Some o' → lifetime_hooks w !! other = Some o →
  lifetime_copy_assign this other w =
    Some (this, with_lifetime_hooks (<[this := o]> (lifetime_hooks w)) w).
Proof.
  intros E EO.
  unfold lifetime_copy_assign, bind, load_on_destroy_, store_on_destroy_.
  rewrite EO, E. by destruct o.
Qed.

Lemma lifetime_destroy_dead this w :
  lifetime_hooks w !! this = None → lifetime_destroy this w = None.
Proof.
  intros E. unfold lifetime_destroy, bind, load_on_destroy_. by rewrite E.
Qed.

Lemma destroy_calls_app this (tr tr' : list Event) :
  destroy_calls this (tr ++ tr') = destroy_calls this tr + destroy_calls this tr'.
Proof. unfold destroy_calls. by rewrite filter_app, length_app. Qed.

Lemma create_calls_app this (tr tr' : list Event) :
  create_calls this (tr ++ tr') = create_calls this tr + create_calls this tr'.
Proof. unfold create_calls. by rewrite filter_app, length_app. Qed.


Lemma destroy_calls_one this (ev : Event) :
  destroy_calls this [ev] = if decide (ev = InvokeDestroy this) then 1 else 0.
Proof.
  unfold destroy_calls. rewrite filter_cons, filter_nil. by case_decide.
Qed.

Lemma create_calls_one this (ev : Event) :
  create_calls this [ev] = if decide (ev = InvokeCreate this) then 1 else 0.
Proof.
  unfold create_calls. rewrite filter_cons, filter_nil. by case_decide.
Qed.

(** ** SpecialMemberHooks: the claims *)

(** C1.  Each of the six transitions calls at most one target: the one in
    the member of [this] that matches the transition, once, and only when
    that member holds a target in the world in which the call is made.
    The transition's trace is its debug line followed by that single call
    or by nothing, so no other member is called. *)
Theorem transition_fires_matching_slot_once t this other w :
  ready t this other w →
  ∃ w', run t this other w = Some (tt, w') ∧
    match armed t this other w with
    | Some g =>
        trace w' = trace w ++ [Debug (message t); Invoke this (slot_of t)] ∧
        ∃ w1, hooks w1 !! this ≫= get_slot (slot_of t) = Some g ∧
              trace w1 = trace w' ∧ env w1 = env w ∧
              env w' = call g w1
    | None =>
        trace w' = trace w ++ [Debug (message t)] ∧ env w' = env w
    end.
Proof.
  destruct t; simpl.
  - intros E. rewrite (default_construct_run _ _ E). eauto.
  - intros [E [S ES]]. rewrite (copy_construct_run _ _ _ _ E ES), ES. simpl.
    eexists; split; [done|].
    destruct (on_copy_construct S) as [g|] eqn:G; simpl; [|done].
    rewrite <-(assoc_L (++)). split; [done|].
    eexists (log _ (log _ (with_hooks _ w))). simpl.
    rewrite lookup_insert_eq. simpl. rewrite <-(assoc_L (++)). eauto.
  - intros [E [S ES]]. rewrite (move_construct_run _ _ _ _ E ES), ES. simpl.
    eexists; split; [done|].
    destruct (on_move_construct S) as [g|] eqn:G; simpl; [|done].
    rewrite <-(assoc_L (++)). split; [done|].
    eexists (log _ (log _ (with_hooks _ w))). simpl.
    rewrite lookup_insert_eq. simpl. rewrite <-(assoc_L (++)). eauto.
  - intros [[T ET] [S ES]]. destruct (decide (this = other)) as [<-|Hne].
    { unfold bind. rewrite copy_assign_self. eauto. }
    unfold bind. rewrite (copy_assign_distinct _ _ _ _ _ Hne ES ET), ES. simpl.
    eexists; split; [done|].
    destruct (on_copy_assign S) as [g|] eqn:G; simpl; [|done].
    rewrite <-(assoc_L (++)). split; [done|].
    eexists (log _ (with_hooks _ (log _ w))). simpl.
    rewrite lookup_insert_eq. simpl. rewrite <-(assoc_L (++)). eauto.
  - intros [[T ET] [S ES]]. destruct (decide (this = other)) as [<-|Hne].
    { unfold bind. rewrite move_assign_self. eauto. }
    unfold bind. rewrite (move_assign_distinct _ _ _ _ _ Hne ES ET), ES. simpl.
    eexists; split; [done|].
    destruct (on_move_assign S) as [g|] eqn:G; simpl; [|done].
    rewrite <-(assoc_L (++)). split; [done|].
    eexists (log _ (with_hooks _ (log _ w))). simpl.
    rewrite lookup_insert_eq. simpl. rewrite <-(assoc_L (++)). eauto.
  - intros [h E]. rewrite (destroy_run _ _ _ E), E. simpl.
    eexists; split; [done|].
    destruct (on_destroy h) as [g|] eqn:G; simpl; [|done].
    rewrite <-(assoc_L (++)). split; [done|].
    eexists (log _ (log _ w)). simpl.
    rewrite E. simpl. rewrite <-(assoc_L (++)). eauto.
Qed.

(** C2.  Copy-construction from a source holding [S] gives the new
    instance the six members [S] and leaves the source with [S]; the test
    and call of the new instance's [on_copy_construct] are made in a world
    [w1] in which the new instance already holds [S]. *)
Theorem copy_construct_duplicates_then_fires this other w S :
  hooks w !! this = None → hooks w !! other = Some S →
  ∃ w', copy_construct this other w = Some (tt, w') ∧
    hooks w' !! this = Some S ∧
    hooks w' !! other = Some S ∧
    hooks w' = <[this := S]> (hooks w) ∧
    ∃ w1, hooks w1 !! this = Some S ∧ hooks w1 !! other = Some S ∧
          trace w1 = trace w ++ [Debug (message CopyConstruct)] ∧
          env w1 = env w ∧
          w' = after_fire this OnCopyConstruct (on_copy_construct S) w1.
Proof.
  intros E ES. assert (this ≠ other) as Hne by congruence.
  rewrite (copy_construct_run _ _ _ _ E ES).
  eexists; split; [done|].
  assert (∀ u : World Callable Env,
            hooks (after_fire this OnCopyConstruct (on_copy_construct S) u) = hooks u)
    as Hh by (intros u; by destruct (on_copy_construct S)).
  rewrite Hh. simpl.
  rewrite lookup_insert_eq, lookup_insert_ne by done.
  repeat split; [done..|].
  exists (log (Debug (message CopyConstruct)) (with_hooks (<[this := S]> (hooks w)) w)).
  simpl. by rewrite lookup_insert_eq, lookup_insert_ne.
Qed.

(** C3.  Move-construction from a source holding [S] gives the new
    instance the six members [S]; the test and call of the new instance's
    [on_move_construct] are made in a world in which it already holds
    [S]; the source is left with moved-from members and its destructor
    still runs to completion. *)
Theorem move_construct_transfers_then_fires this other w S :
  hooks w !! this = None → hooks w !! other = Some S →
  ∃ w', move_construct this other w = Some (tt, w') ∧
    hooks w' !! this = Some S ∧
    hooks w' !! other = Some (moved_hooks S) ∧
    (∃ w1, hooks w1 !! this = Some S ∧
           trace w1 = trace w ++ [Debug (message MoveConstruct)] ∧
           env w1 = env w ∧
           w' = after_fire this OnMoveConstruct (on_move_construct S) w1) ∧
    ∃ w'', destroy other w' = Some (tt, w'') ∧
           hooks w'' !! other = None ∧ hooks w'' !! this = Some S.
Proof.
  intros E ES. assert (this ≠ other) as Hne by congruence.
  rewrite (move_construct_run _ _ _ _ E ES).
  eexists; split; [done|].
  assert (∀ u : World Callable Env,
            hooks (after_fire this OnMoveConstruct (on_move_construct S) u) = hooks u)
    as Hh by (intros u; by destruct (on_move_construct S)).
  rewrite Hh. simpl.
  rewrite lookup_insert_eq, lookup_insert_ne, lookup_insert_eq by done.
  repeat split; [done..| |].
  - eexists (log _ (with_hooks _ w)); repeat split; simpl.
    apply lookup_insert_eq.
  - erewrite destroy_run; cycle 1.
    { rewrite Hh. simpl. by rewrite lookup_insert_ne, lookup_insert_eq. }
    eexists; split; [done|]. simpl. rewrite Hh. simpl.
    rewrite lookup_delete_eq, lookup_delete_ne, lookup_insert_eq by done. done.
Qed.

(** C4.  Assigning an instance to itself, by copy or by move, does nothing
    beyond the guard: the whole call amounts to the debug line written on
    entry, before the guard is tested, and the return of [*this].  No
    member of any object changes, no target is called, the captured state
    is untouched, and nothing follows that line in the trace. *)
Theorem self_assignment_is_noop this w :
  (∃ w', copy_assign this this w = Some (this, w') ∧
     copy_assign this this w = (debug (message CopyAssign) >> ret this) w ∧
     hooks w' = hooks w ∧ lifetime_hooks w' = lifetime_hooks w ∧
     env w' = env w ∧
     trace w' = trace w ++ [Debug (message CopyAssign)]) ∧
  (∃ w', move_assign this this w = Some (this, w') ∧
     move_assign this this w = (debug (message MoveAssign) >> ret this) w ∧
     hooks w' = hooks w ∧ lifetime_hooks w' = lifetime_hooks w ∧
     env w' = env w ∧
     trace w' = trace w ++ [Debug (message MoveAssign)]).
Proof.
  rewrite copy_assign_self, move_assign_self.
  split; eexists; done.
Qed.

(** C5.  Copy-assignment between distinct instances overwrites the six
    members of the target with those of the source, whatever the target
    held; the source keeps its members.  The test and call of the
    target's [on_copy_assign] — by then the source's — are made in a
    world [w1] in which all six are in place. *)
Theorem copy_assign_duplicates_then_fires this other w S T :
  this ≠ other → hooks w !! other = Some S → hooks w !! this = Some T →
  ∃ w', copy_assign this other w = Some (this, w') ∧
    hooks w' !! this = Some S ∧
    hooks w' !! other = Some S ∧
    hooks w' = <[this := S]> (hooks w) ∧
    ∃ w1, hooks w1 !! this = Some S ∧
          trace w1 = trace w ++ [Debug (message CopyAssign)] ∧
          env w1 = env w ∧
          w' = after_fire this OnCopyAssign (on_copy_assign S) w1.
Proof.
  intros Hne ES ET.
  rewrite (copy_assign_distinct _ _ _ _ _ Hne ES ET).
  eexists; split; [done|].
  assert (∀ u : World Callable Env,
            hooks (after_fire this OnCopyAssign (on_copy_assign S) u) = hooks u)
    as Hh by (intros u; by destruct (on_copy_assign S)).
  rewrite Hh. simpl.
  rewrite lookup_insert_eq, lookup_insert_ne by done.
  repeat split; [done..|].
  eexists (with_hooks _ (log _ w)); repeat split; simpl.
  apply lookup_insert_eq.
Qed.

(** C6.  Move-assignment between distinct instances hands the six members
    of the source over to the target, then tests and calls the target's
    [on_move_assign] in a world in which all six are in place.  In the
    scenario of the specification, a counter that the target increments
    and that starts at [0] ends at [1]. *)
Theorem move_assign_transfers_then_fires :
  (∀ this other w S T,
     this ≠ other → hooks w !! other = Some S → hooks w !! this = Some T →
     ∃ w', move_assign this other w = Some (this, w') ∧
       hooks w' !! this = Some S ∧
       hooks w' !! other = Some (moved_hooks S) ∧
       ∃ w1, hooks w1 !! this = Some S ∧
             trace w1 = trace w ++ [Debug (message MoveAssign)] ∧
             env w1 = env w ∧
             w' = after_fire this OnMoveAssign (on_move_assign S) w1) ∧
  (∀ (a b : addr) (inc : Callable) (C : Env → nat) w,
     (∀ u, C (call inc u) = C (env u) + 1) →
     a ≠ b → hooks w !! a = None → hooks w !! b = None → C (env w) = 0 →
     ∃ w', move_assign_scenario a b inc w = Some (b, w') ∧ C (env w') = 1).
Proof.
  split.
  - intros this other w S T Hne ES ET.
    rewrite (move_assign_distinct _ _ _ _ _ Hne ES ET).
    eexists; split; [done|].
    assert (∀ u : World Callable Env,
              hooks (after_fire this OnMoveAssign (on_move_assign S) u) = hooks u)
      as Hh by (intros u; by destruct (on_move_assign S)).
    rewrite Hh. simpl.
    rewrite lookup_insert_eq, lookup_insert_ne, lookup_insert_eq by done.
    repeat split; [done..|].
    eexists (with_hooks _ (log _ w)); repeat split; simpl.
    apply lookup_insert_eq.
  - intros a b inc C w Hinc Hne Ea Eb HC. unfold move_assign_scenario.
    rewrite (bind_run _ _ _ _ _ (default_construct_run _ _ Ea)).
    erewrite bind_run; cycle 1.
    { apply store_run. simpl. apply lookup_insert_eq. }
    erewrite bind_run; cycle 1.
    { apply default_construct_run. simpl.
      by rewrite lookup_insert_ne, lookup_insert_ne by done. }
    rewrite (move_assign_distinct b a _
               (set_slot OnMoveAssign (Some inc) default_initialized)
               default_initialized); [|done|simpl..].
    + eexists; split; [done|]. simpl. unfold after_call.
      simpl. rewrite Hinc. simpl. by rewrite HC.
    + rewrite lookup_insert_ne by done. apply lookup_insert_eq.
    + apply lookup_insert_eq.
Qed.

(** C9.  Default construction leaves the six members empty and calls
    nothing: when the constructor reaches its test of [on_construct], the
    member it reads is empty, so the call after the test is never made. *)
Theorem default_construct_invokes_nothing this w :
  hooks w !! this = None →
  ∃ w', default_construct this w = Some (tt, w') ∧
    hooks w' !! this = Some default_initialized ∧
    (∀ s, hooks w' !! this ≫= get_slot s = None) ∧
    trace w' = trace w ++ [Debug (message DefaultConstruct)] ∧
    env w' = env w ∧
    (emplace this default_initialized >>
     debug (message DefaultConstruct) >>
     load this OnConstruct) w = Some (None, w').
Proof.
  intros E. rewrite (default_construct_run _ _ E).
  eexists; split; [done|]. simpl. rewrite lookup_insert_eq.
  repeat split; [by intros []|].
  rewrite (bind_run _ _ _ _ _ (emplace_run _ _ _ E)).
  erewrite bind_run; [|done].
  by rewrite (load_run _ _ _ default_initialized) by apply lookup_insert_eq.
Qed.

(** C10.  Both assignment operators return the address of the assigned-to
    instance, whether or not source and target are the same object. *)
Theorem assignment_returns_this this other w :
  is_Some (hooks w !! this) → is_Some (hooks w !! other) →
  (∃ w', copy_assign this other w = Some (this, w')) ∧
  (∃ w', move_assign this other w = Some (this, w')) ∧
  (∀ r w', copy_assign this other w = Some (r, w') → r = this) ∧
  (∀ r w', move_assign this other w = Some (r, w') → r = this).
Proof.
  intros [T ET] [S ES]. destruct (decide (this = other)) as [<-|Hne].
  - rewrite copy_assign_self, move_assign_self.
    repeat split; eauto; congruence.
  - rewrite (copy_assign_distinct _ _ _ _ _ Hne ES ET).
    rewrite (move_assign_distinct _ _ _ _ _ Hne ES ET).
    repeat split; eauto; congruence.
Qed.

(** ** ObjectLifetimeHook: the claims *)

(** C7.  Destroying an [ObjectLifetimeHook] whose stored callback is
    present calls it once, in a world in which the instance is still
    alive; if it is absent nothing is called.  Afterwards the instance is
    gone, so it cannot be destroyed, and the callback called, a second
    time.  Nothing else the class offers calls a stored destroy-callback:
    not the declared constructor (with any create-callback), not the
    implicit copy constructor, not the implicit copy assignment. *)
Theorem lifetime_destroy_calls_on_destroy_once :
  (∀ this w (o : ObjectLifetimeHook Callable),
     lifetime_hooks w !! this = Some o →
     ∃ w', lifetime_destroy this w = Some (tt, w') ∧
       lifetime_hooks w' = delete this (lifetime_hooks w) ∧
       lifetime_destroy this w' = None ∧
       match on_destroy_ o with
       | Some g =>
           trace w' = trace w ++ [InvokeDestroy this] ∧
           destroy_calls this (trace w') = destroy_calls this (trace w) + 1 ∧
           ∃ w1, lifetime_hooks w1 !! this = Some o ∧
                 trace w1 = trace w' ∧ env w1 = env w ∧
                 env w' = call g w1
       | None => trace w' = trace w ∧ env w' = env w
       end) ∧
  (∀ this (c d : std_function Callable) w,
     lifetime_hooks w !! this = None →
     ∃ w', lifetime_construct this c d w = Some (tt, w') ∧
       lifetime_hooks w' !! this = Some {| on_destroy_ := d |} ∧
       ∀ a, destroy_calls a (trace w') = destroy_calls a (trace w)) ∧
  (∀ this other w (o : ObjectLifetimeHook Callable),
     lifetime_hooks w !! this = None → lifetime_hooks w !! other = Some o →
     ∃ w', lifetime_copy_construct this other w = Some (tt, w') ∧
       lifetime_hooks w' !! this = Some o ∧
       trace w' = trace w ∧ env w' = env w) ∧
  (∀ this other w (o o' : ObjectLifetimeHook Callable),
     lifetime_hooks w !! this = Some o' → lifetime_hooks w !! other = Some o →
     ∃ w', lifetime_copy_assign this other w = Some (this, w') ∧
       lifetime_hooks w' !! this = Some o ∧
       trace w' = trace w ∧ env w' = env w).
Proof.
  split; [|split; [|split]].
  - intros this w o E. rewrite (lifetime_destroy_run _ _ _ E).
    eexists; split; [done|].
    assert (∀ u : World Callable Env,
              lifetime_hooks (after_guarded_call (InvokeDestroy this) (on_destroy_ o) u)
              = lifetime_hooks u)
      as Hh by (intros u; by destruct (on_destroy_ o)).
    simpl. split; [done|]. split.
    { apply lifetime_destroy_dead. simpl. apply lookup_delete_eq. }
    destruct (on_destroy_ o) as [g|]; simpl; [|done].
    split; [done|]. split.
    { by rewrite destroy_calls_app, destroy_calls_one, decide_True. }
    by exists (log (InvokeDestroy this) w).
  - intros this c d w E. rewrite (lifetime_construct_run _ _ _ _ E).
    eexists; split; [done|]. destruct c as [g|]; simpl.
    + rewrite lookup_insert_eq. split; [done|]. intros a.
      rewrite destroy_calls_app, destroy_calls_one, decide_False by done. lia.
    + by rewrite lookup_insert_eq.
  - intros this other w o E EO.
    rewrite (lifetime_copy_construct_run _ _ _ _ E EO).
    eexists; split; [done|]. simpl. by rewrite lookup_insert_eq.
  - intros this other w o o' E EO.
    rewrite (lifetime_copy_assign_run _ _ _ _ _ E EO).
    eexists; split; [done|]. simpl. by rewrite lookup_insert_eq.
Qed.

(** C8.  The constructor of [ObjectLifetimeHook] calls a present
    create-callback once, in the returned world, and skips an absent one.
    What it stores is the destroy-callback alone: the resulting objects
    are the same whatever create-callback was passed, and the later
    destruction of the instance does not call the create-callback. *)
Theorem lifetime_construct_calls_on_create_once this (c d : std_function Callable) w :
  lifetime_hooks w !! this = None →
  ∃ w', lifetime_construct this c d w = Some (tt, w') ∧
    lifetime_hooks w' = <[this := {| on_destroy_ := d |}]> (lifetime_hooks w) ∧
    hooks w' = hooks w ∧
    match c with
    | Some g =>
        trace w' = trace w ++ [InvokeCreate this] ∧
        create_calls this (trace w') = create_calls this (trace w) + 1 ∧
        ∃ w1, trace w1 = trace w' ∧ env w1 = env w ∧ env w' = call g w1
    | None => trace w' = trace w ∧ env w' = env w
    end ∧
    (∀ c', ∃ w2, lifetime_construct this c' d w = Some (tt, w2) ∧
                 lifetime_hooks w2 = lifetime_hooks w' ∧ hooks w2 = hooks w') ∧
    ∃ w'', lifetime_destroy this w' = Some (tt, w'') ∧
           ∀ a, create_calls a (trace w'') = create_calls a (trace w').
Proof.
  intros E. rewrite (lifetime_construct_run _ _ _ _ E).
  eexists; split; [done|].
  assert (∀ (ev : Event) (x : std_function Callable) (u : World Callable Env),
            lifetime_hooks (after_guarded_call ev x u) = lifetime_hooks u
            ∧ hooks (after_guarded_call ev x u) = hooks u)
    as Hh by (intros ev x u; by destruct x).
  destruct (Hh (InvokeCreate this) c
              (with_lifetime_hooks (<[this := {| on_destroy_ := d |}]> (lifetime_hooks w)) w))
    as [-> ->].
  simpl. repeat split.
  - destruct c as [g|]; simpl; [|done].
    split; [done|]. split.
    { by rewrite create_calls_app, create_calls_one, decide_True. }
    by exists (log (InvokeCreate this) 
                 (with_lifetime_hooks (<[this := {| on_destroy_ := d |}]> (lifetime_hooks w)) w)).
  - intros c'. rewrite (lifetime_construct_run _ _ _ _ E).
    eexists; split; [done|]. by destruct c'.
  - erewrite lifetime_destroy_run; cycle 1.
    { destruct (Hh (InvokeCreate this) c
              (with_lifetime_hooks (<[this := {| on_destroy_ := d |}]> (lifetime_hooks w)) w))
        as [-> _]. simpl. apply lookup_insert_eq. }
    eexists; split; [done|]. intros a. simpl.
    destruct d as [g|]; simpl; [|done].
    rewrite create_calls_app, create_calls_one, decide_False by done. lia.
Qed.

End Proofs.

(** * Running the model *)

Example scenario_runs :
  observe (move_assign_scenario 1 2 (Bump 1) start)
  = Some (2, 1, [Debug "SpecialMemberHooks: default constructor called";
                 Debug "SpecialMemberHooks: default constructor called";
                 Debug "SpecialMemberHooks: move assignment called";
                 Invoke 2 OnMoveAssign]).
Proof. vm_compute. reflexivity. Qed.

Example self_copy_assign_runs :
  observe (copy_assign 1 1 one_object)
  = Some (1, 0, [Debug "SpecialMemberHooks: copy assignment called"]).
Proof. vm_compute. reflexivity. Qed.

Example self_move_assign_runs :
  observe (move_assign 1 1 one_object)
  = Some (1, 0, [Debug "SpecialMemberHooks: move assignment called"]).
Proof. vm_compute. reflexivity. Qed.

(** The target of [on_copy_assign] finds [on_destroy] of the assigned-to
    object already in place. *)
Example copy_assign_call_sees_members :
  observe (copy_assign 2 1 two_objects)
  = Some (2, 1, [Debug "SpecialMemberHooks: copy assignment called";
                 Invoke 2 OnCopyAssign]).
Proof. vm_compute. reflexivity. Qed.

(** Copying twice from the same source calls its [on_copy_construct] twice:
    the source keeps its members. *)
Example copy_twice_runs :
  observe ((copy_construct 3 1 >> copy_construct 4 1)%hook
             {| hooks := <[1 := set_slot OnCopyConstruct (Some (Bump 1)) default_initialized]> ∅;
                lifetime_hooks := ∅; trace := []; env := 0 |})
  = Some (tt, 2, [Debug "SpecialMemberHooks: copy constructor called";
                  Invoke 3 OnCopyConstruct;
                  Debug "SpecialMemberHooks: copy constructor called";
                  Invoke 4 OnCopyConstruct]).
Proof. vm_compute. reflexivity. Qed.

(** The target of [on_move_construct] finds the new object's members in
    place and adds one.  With the usual moved-from state the source's
    destructor then calls nothing; with a moved-from state that keeps the
    target it calls [on_destroy], which adds sixteen. *)
Example moved_from_source_destructs :
  observe ((move_construct 2 1 >> destroy 1)%hook one_object)
  = Some (tt, 1, [Debug "SpecialMemberHooks: move constructor called";
                  Invoke 2 OnMoveConstruct;
                  Debug "SpecialMemberHooks: destructor called"]).
Proof. vm_compute. reflexivity. Qed.

Example lazily_moved_from_source_destructs :
  observe ((move_construct (RT := lazy_move) 2 1 >> destroy (RT := lazy_move) 1)%hook
             one_object)
  = Some (tt, 17, [Debug "SpecialMemberHooks: move constructor called";
                   Invoke 2 OnMoveConstruct;
                   Debug "SpecialMemberHooks: destructor called";
                   Invoke 1 OnDestroy]).
Proof. vm_compute. reflexivity. Qed.

Example lifetime_hook_runs :
  observe ((lifetime_construct 5 (Some (Bump 2)) (Some (Bump 3)) >>
            lifetime_destroy 5)%hook start)
  = Some (tt, 5, [InvokeCreate 5; InvokeDestroy 5]).
Proof. vm_compute. reflexivity. Qed.

(** Destroying a dead object, or constructing over a live one, is not
    defined. *)
Example double_destroy_undefined :
  observe ((destroy 1 >> destroy 1)%hook one_object) = None.
Proof. vm_compute. reflexivity. Qed.

(** * The theorems at concrete inputs *)

Lemma transition_fires_matching_slot_once_witness :
  ready CopyAssign 2 1 two_objects ∧
  ∃ w', run CopyAssign 2 1 two_objects = Some (tt, w') ∧
    match armed CopyAssign 2 1 two_objects with
    | Some g =>
        trace w' = trace two_objects ++ [Debug (message CopyAssign); Invoke 2 (slot_of CopyAssign)] ∧
        ∃ w1, hooks w1 !! 2 ≫= get_slot (slot_of CopyAssign) = Some g ∧
              trace w1 = trace w' ∧ env w1 = env two_objects ∧
              env w' = call g w1
    | None =>
        trace w' = trace two_objects ++ [Debug (message CopyAssign)] ∧
        env w' = env two_objects
    end.
Proof.
  assert (ready CopyAssign 2 1 two_objects) as H.
  { split; vm_compute; eauto. }
  split; [exact H|].
  exact (transition_fires_matching_slot_once CopyAssign 2 1 two_objects H).
Defined.

Lemma copy_construct_duplicates_then_fires_witness :
  hooks one_object !! 2 = None ∧ hooks one_object !! 1 = Some sample ∧
  ∃ w', copy_construct 2 1 one_object = Some (tt, w') ∧
    hooks w' !! 2 = Some sample ∧
    hooks w' !! 1 = Some sample ∧
    hooks w' = <[2 := sample]> (hooks one_object) ∧
    ∃ w1, hooks w1 !! 2 = Some sample ∧ hooks w1 !! 1 = Some sample ∧
          trace w1 = trace one_object ++ [Debug (message CopyConstruct)] ∧
          env w1 = env one_object ∧
          w' = after_fire 2 OnCopyConstruct (on_copy_construct sample) w1.
Proof.
  assert (hooks one_object !! 2 = None) as H2 by (vm_compute; reflexivity).
  assert (hooks one_object !! 1 = Some sample) as H1 by (vm_compute; reflexivity).
  split; [exact H2|]. split; [exact H1|].
  exact (copy_construct_duplicates_then_fires 2 1 one_object sample H2 H1).
Defined.

Lemma move_construct_transfers_then_fires_witness :
  hooks one_object !! 2 = None ∧ hooks one_object !! 1 = Some sample ∧
  ∃ w', move_construct (RT := lazy_move) 2 1 one_object = Some (tt, w') ∧
    hooks w' !! 2 = Some sample ∧
    hooks w' !! 1 = Some (moved_hooks (RT := lazy_move) sample) ∧
    (∃ w1, hooks w1 !! 2 = Some sample ∧
           trace w1 = trace one_object ++ [Debug (message MoveConstruct)] ∧
           env w1 = env one_object ∧
           w' = after_fire (RT := lazy_move) 2 OnMoveConstruct (on_move_construct sample) w1) ∧
    ∃ w'', destroy (RT := lazy_move) 1 w' = Some (tt, w'') ∧
           hooks w'' !! 1 = None ∧ hooks w'' !! 2 = Some sample.
Proof.
  assert (hooks one_object !! 2 = None) as H2 by (vm_compute; reflexivity).
  assert (hooks one_object !! 1 = Some sample) as H1 by (vm_compute; reflexivity).
  split; [exact H2|]. split; [exact H1|].
  exact (move_construct_transfers_then_fires (RT := lazy_move) 2 1 one_object sample H2 H1).
Defined.

Lemma copy_assign_duplicates_then_fires_witness :
  2 ≠ 1 ∧ hooks two_objects !! 1 = Some sample ∧
  hooks two_objects !! 2 = Some default_initialized ∧
  ∃ w', copy_assign 2 1 two_objects = Some (2, w') ∧
    hooks w' !! 2 = Some sample ∧
    hooks w' !! 1 = Some sample ∧
    hooks w' = <[2 := sample]> (hooks two_objects) ∧
    ∃ w1, hooks w1 !! 2 = Some sample ∧
          trace w1 = trace two_objects ++ [Debug (message CopyAssign)] ∧
          env w1 = env two_objects ∧
          w' = after_fire 2 OnCopyAssign (on_copy_assign sample) w1.
Proof.
  assert (2 ≠ 1) as Hne by lia.
  assert (hooks two_objects !! 1 = Some sample) as H1 by (vm_compute; reflexivity).
  assert (hooks two_objects !! 2 = Some default_initialized) as H2
    by (vm_compute; reflexivity).
  split; [exact Hne|]. split; [exact H1|]. split; [exact H2|].
  exact (copy_assign_duplicates_then_fires 2 1 two_objects sample default_initialized
           Hne H1 H2).
Defined.

Lemma move_assign_transfers_then_fires_witness :
  (2 ≠ 1 ∧ hooks two_objects !! 1 = Some sample ∧
   hooks two_objects !! 2 = Some default_initialized ∧
   ∃ w', move_assign 2 1 two_objects = Some (2, w') ∧
     hooks w' !! 2 = Some sample ∧
     hooks w' !! 1 = Some (moved_hooks sample) ∧
     ∃ w1, hooks w1 !! 2 = Some sample ∧
           trace w1 = trace two_objects ++ [Debug (message MoveAssign)] ∧
           env w1 = env two_objects ∧
           w' = after_fire 2 OnMoveAssign (on_move_assign sample) w1) ∧
  ((∀ u : World Action nat, id (call (Bump 1) u) = id (env u) + 1) ∧
   1 ≠ 2 ∧ hooks start !! 1 = None ∧ hooks start !! 2 = None ∧ id (env start) = 0 ∧
   ∃ w', move_assign_scenario 1 2 (Bump 1) start = Some (2, w') ∧ id (env w') = 1).
Proof.
  assert (2 ≠ 1) as Hne by lia.
  assert (hooks two_objects !! 1 = Some sample) as H1 by (vm_compute; reflexivity).
  assert (hooks two_objects !! 2 = Some default_initialized) as H2
    by (vm_compute; reflexivity).
  assert (∀ u : World Action nat, id (call (Bump 1) u) = id (env u) + 1) as Hinc
    by (intros u; reflexivity).
  assert (1 ≠ 2) as Hne' by lia.
  assert (hooks start !! 1 = None) as E1 by (vm_compute; reflexivity).
  assert (hooks start !! 2 = None) as E2 by (vm_compute; reflexivity).
  assert (id (env start) = 0) as E0 by reflexivity.
  split.
  - split; [exact Hne|]. split; [exact H1|]. split; [exact H2|].
    exact (proj1 move_assign_transfers_then_fires 2 1 two_objects sample
             default_initialized Hne H1 H2).
  - split; [exact Hinc|]. split; [exact Hne'|]. split; [exact E1|].
    split; [exact E2|]. split; [exact E0|].
    exact (proj2 move_assign_transfers_then_fires 1 2 (Bump 1) id start
             Hinc Hne' E1 E2 E0).
Defined.

Lemma default_construct_invokes_nothing_witness :
  hooks one_object !! 2 = None ∧
  ∃ w', default_construct 2 one_object = Some (tt, w') ∧
    hooks w' !! 2 = Some default_initialized ∧
    (∀ s, hooks w' !! 2 ≫= get_slot s = None) ∧
    trace w' = trace one_object ++ [Debug (message DefaultConstruct)] ∧
    env w' = env one_object ∧
    (emplace 2 default_initialized >>
     debug (message DefaultConstruct) >>
     load 2 OnConstruct)%hook one_object = Some (None, w').
Proof.
  assert (hooks one_object !! 2 = None) as H2 by (vm_compute; reflexivity).
  split; [exact H2|].
  exact (default_construct_invokes_nothing 2 one_object H2).
Defined.

Lemma assignment_returns_this_witness :
  is_Some (hooks two_objects !! 2) ∧ is_Some (hooks two_objects !! 1) ∧
  (∃ w', copy_assign 2 1 two_objects = Some (2, w')) ∧
  (∃ w', move_assign 2 1 two_objects = Some (2, w')) ∧
  (∀ r w', copy_assign 2 1 two_objects = Some (r, w') → r = 2) ∧
  (∀ r w', move_assign 2 1 two_objects = Some (r, w') → r = 2).
Proof.
  assert (is_Some (hooks two_objects !! 2)) as H2 by (vm_compute; eauto).
  assert (is_Some (hooks two_objects !! 1)) as H1 by (vm_compute; eauto).
  split; [exact H2|]. split; [exact H1|].
  exact (assignment_returns_this 2 1 two_objects H2 H1).
Defined.

Lemma lifetime_destroy_calls_on_destroy_once_witness :
  (lifetime_hooks one_lifetime_hook !! 5 = Some {| on_destroy_ := Some (Bump 3) |} ∧
   ∃ w', lifetime_destroy 5 one_lifetime_hook = Some (tt, w') ∧
     lifetime_hooks w' = delete 5 (lifetime_hooks one_lifetime_hook) ∧
     lifetime_destroy 5 w' = None ∧
     trace w' = trace one_lifetime_hook ++ [InvokeDestroy 5] ∧
     destroy_calls 5 (trace w') = destroy_calls 5 (trace one_lifetime_hook) + 1 ∧
     ∃ w1, lifetime_hooks w1 !! 5 = Some {| on_destroy_ := Some (Bump 3) |} ∧
           trace w1 = trace w' ∧ env w1 = env one_lifetime_hook ∧
           env w' = call (Bump 3) w1) ∧
  (lifetime_hooks one_lifetime_hook !! 6 = None ∧
   ∃ w', lifetime_construct 6 (Some (Bump 1)) (Some (Bump 1)) one_lifetime_hook
         = Some (tt, w') ∧
     lifetime_hooks w' !! 6 = Some {| on_destroy_ := Some (Bump 1) |} ∧
     ∀ a, destroy_calls a (trace w') = destroy_calls a (trace one_lifetime_hook)) ∧
  (lifetime_hooks one_lifetime_hook !! 6 = None ∧
   ∃ w', lifetime_copy_construct 6 5 one_lifetime_hook = Some (tt, w') ∧
     lifetime_hooks w' !! 6 = Some {| on_destroy_ := Some (Bump 3) |} ∧
     trace w' = trace one_lifetime_hook ∧ env w' = env one_lifetime_hook) ∧
  (∃ w', lifetime_copy_assign 5 5 one_lifetime_hook = Some (5, w') ∧
     lifetime_hooks w' !! 5 = Some {| on_destroy_ := Some (Bump 3) |} ∧
     trace w' = trace one_lifetime_hook ∧ env w' = env one_lifetime_hook).
Proof.
  assert (lifetime_hooks one_lifetime_hook !! 5 = Some {| on_destroy_ := Some (Bump 3) |})
    as H5 by (vm_compute; reflexivity).
  assert (lifetime_hooks one_lifetime_hook !! 6 = None) as H6 by (vm_compute; reflexivity).
  destruct (lifetime_destroy_calls_on_destroy_once (RT := counting)) as (D & K & Y & A).
  split; [|split; [|split]].
  - split; [exact H5|]. exact (D 5 one_lifetime_hook _ H5).
  - split; [exact H6|]. exact (K 6 (Some (Bump 1)) (Some (Bump 1)) one_lifetime_hook H6).
  - split; [exact H6|]. exact (Y 6 5 one_lifetime_hook _ H6 H5).
  - exact (A 5 5 one_lifetime_hook _ _ H5 H5).
Defined.

Lemma lifetime_construct_calls_on_create_once_witness :
  lifetime_hooks start !! 5 = None ∧
  ∃ w', lifetime_construct 5 (Some (Bump 2)) (Some (Bump 3)) start = Some (tt, w') ∧
    lifetime_hooks w' = <[5 := {| on_destroy_ := Some (Bump 3) |}]> (lifetime_hooks start) ∧
    hooks w' = hooks start ∧
    (trace w' = trace start ++ [InvokeCreate 5] ∧
     create_calls 5 (trace w') = create_calls 5 (trace start) + 1 ∧
     ∃ w1, trace w1 = trace w' ∧ env w1 = env start ∧ env w' = call (Bump 2) w1) ∧
    (∀ c', ∃ w2, lifetime_construct 5 c' (Some (Bump 3)) start = Some (tt, w2) ∧
                 lifetime_hooks w2 = lifetime_hooks w' ∧ hooks w2 = hooks w') ∧
    ∃ w'', lifetime_destroy 5 w' = Some (tt, w'') ∧
           ∀ a, create_calls a (trace w'') = create_calls a (trace w').
Proof.
  assert (lifetime_hooks start !! 5 = None) as H5 by (vm_compute; reflexivity).
  split; [exact H5|].
  exact (lifetime_construct_calls_on_create_once 5 (Some (Bump 2)) (Some (Bump 3)) start H5).
Defined.

(** * Further results *)

Section More.
Context {Callable Env : Type} `{RT : !Runtime Callable Env}.
Implicit Types (w u : World Callable Env) (h S T : SpecialMemberHooks Callable).
Implicit Types (this other a b : addr) (s : Slot) (f : std_function Callable).
Implicit Types (o : ObjectLifetimeHook Callable) (p : list (Step Callable)).
Local Open Scope hook_scope.

(** ** What a guarded call leaves alone *)

Lemma hooks_after_guarded_call ev f u :
  hooks (after_guarded_call ev f u) = hooks u.
Proof. by destruct f. Qed.

Lemma lifetime_hooks_after_guarded_call ev f u :
  lifetime_hooks (after_guarded_call ev f u) = lifetime_hooks u.
Proof. by destruct f. Qed.

Lemma trace_after_guarded_call ev f u :
  trace (after_guarded_call ev f u) = trace u ++ fired ev f.
Proof. destruct f; simpl; [done|]. by rewrite app_nil_r. Qed.

(** ** Inversion: what a completed call must have done *)

Lemma bind_fail {A B} (c : M Callable Env A) (k : A → M Callable Env B) w :
  c w = None → bind c k w = None.
Proof. intros E. unfold bind. by rewrite E. Qed.

Lemma default_construct_inv this w w' :
  default_construct this w = Some (tt, w') →
  hooks w !! this = None ∧
  w' = log (Debug (message DefaultConstruct))
         (with_hooks (<[this := default_initialized]> (hooks w)) w).
Proof.
  destruct (hooks w !! this) as [T|] eqn:E.
  - unfold default_construct, bind, emplace. by rewrite E.
  - rewrite (default_construct_run _ _ E). by intros [= <-].
Qed.

Lemma copy_construct_inv this other w w' :
  copy_construct this other w = Some (tt, w') →
  ∃ S, hooks w !! this = None ∧ hooks w !! other = Some S ∧
    w' = after_fire this OnCopyConstruct (on_copy_construct S)
           (log (Debug (message CopyConstruct))
              (with_hooks (<[this := S]> (hooks w)) w)).
Proof.
  destruct (hooks w !! other) as [S|] eqn:ES.
  - destruct (hooks w !! this) as [T|] eqn:E.
    + unfold copy_construct.
      do 6 rewrite (bind_run _ _ _ _ _ (load_run _ _ _ _ ES)).
      unfold bind, emplace. by rewrite E.
    + rewrite (copy_construct_run _ _ _ _ E ES). intros [= <-]. by exists S.
  - unfold copy_construct. rewrite bind_fail; [done|].
    unfold load. by rewrite ES.
Qed.

Lemma move_construct_inv this other w w' :
  move_construct this other w = Some (tt, w') →
  ∃ S, hooks w !! this = None ∧ hooks w !! other = Some S ∧
    w' = after_fire this OnMoveConstruct (on_move_construct S)
           (log (Debug (message MoveConstruct))
              (with_hooks (<[this := S]> (<[other := moved_hooks S]> (hooks w))) w)).
Proof.
  destruct (hooks w !! other) as [S|] eqn:ES.
  - destruct (hooks w !! this) as [T|] eqn:E.
    + unfold move_construct.
      rewrite (bind_run _ _ _ _ _ (move_out_run _ _ _ _ ES)).
      do 5 (erewrite bind_run;
              [|apply move_out_run; simpl; apply lookup_insert_eq]).
      unfold bind at 1, emplace. cbn [hooks with_hooks].
      rewrite !insert_insert_eq.
      destruct (decide (this = other)) as [->|Hne].
      * by rewrite lookup_insert_eq.
      * by rewrite lookup_insert_ne, E.
    + rewrite (move_construct_run _ _ _ _ E ES). intros [= <-]. by exists S.
  - unfold move_construct. rewrite bind_fail; [done|].
    unfold move_out. apply bind_fail. unfold load. by rewrite ES.
Qed.

Lemma copy_assign_inv this other w r w' :
  copy_assign this other w = Some (r, w') →
  r = this ∧
  ((this = other ∧ w' = log (Debug (message CopyAssign)) w) ∨
   (this ≠ other ∧ ∃ S T, hooks w !! other = Some S ∧ hooks w !! this = Some T ∧
      w' = after_fire this OnCopyAssign (on_copy_assign S)
             (with_hooks (<[this := S]> (hooks w))
                (log (Debug (message CopyAssign)) w)))).
Proof.
  destruct (decide (this = other)) as [<-|Hne].
  { rewrite copy_assign_self. intros [= <- <-]. auto. }
  destruct (hooks w !! other) as [S|] eqn:ES.
  - destruct (hooks w !! this) as [T|] eqn:ET.
    + rewrite (copy_assign_distinct _ _ _ _ _ Hne ES ET). intros [= <- <-].
      split; [done|]. right. split; [done|]. by exists S, T.
    + unfold copy_assign. erewrite bind_run; [|done].
      rewrite decide_True by done.
      rewrite bind_fail; [done|]. apply bind_fail. unfold copy_member.
      erewrite bind_run; [|apply load_run; exact ES].
      unfold store. simpl. by rewrite ET.
  - unfold copy_assign. erewrite bind_run; [|done].
    rewrite decide_True by done.
    rewrite bind_fail; [done|]. apply bind_fail. unfold copy_member.
    apply bind_fail. unfold load. simpl. by rewrite ES.
Qed.

Lemma move_assign_inv this other w r w' :
  move_assign this other w = Some (r, w') →
  r = this ∧
  ((this = other ∧ w' = log (Debug (message MoveAssign)) w) ∨
   (this ≠ other ∧ ∃ S T, hooks w !! other = Some S ∧ hooks w !! this = Some T ∧
      w' = after_fire this OnMoveAssign (on_move_assign S)
             (with_hooks (<[this := S]> (<[other := moved_hooks S]> (hooks w)))
                (log (Debug (message MoveAssign)) w)))).
Proof.
  destruct (decide (this = other)) as [<-|Hne].
  { rewrite move_assign_self. intros [= <- <-]. auto. }
  destruct (hooks w !! other) as [S|] eqn:ES.
  - destruct (hooks w !! this) as [T|] eqn:ET.
    + rewrite (move_assign_distinct _ _ _ _ _ Hne ES ET). intros [= <- <-].
      split; [done|]. right. split; [done|]. by exists S, T.
    + unfold move_assign. erewrite bind_run; [|done].
      rewrite decide_True by done.
      rewrite bind_fail; [done|]. apply bind_fail. unfold move_member.
      erewrite bind_run; [|apply move_out_run; exact ES].
      unfold store. simpl. by rewrite lookup_insert_ne, ET by done.
  - unfold move_assign. erewrite bind_run; [|done].
    rewrite decide_True by done.
    rewrite bind_fail; [done|]. apply bind_fail. unfold move_member.
    apply bind_fail. unfold move_out. apply bind_fail.
    unfold load. simpl. by rewrite ES.
Qed.

Lemma destroy_inv this w w' :
  destroy this w = Some (tt, w') →
  ∃ h, hooks w !! this = Some h ∧
    w' = with_hooks (delete this (hooks w))
           (after_fire this OnDestroy (on_destroy h)
              (log (Debug (message Destroy)) w)).
Proof.
  destruct (hooks w !! this) as [h|] eqn:E.
  - rewrite (destroy_run _ _ _ E). intros [= <-]. by exists h.
  - unfold destroy. erewrite bind_run; [|done].
    rewrite bind_fail; [done|]. unfold fire. apply bind_fail.
    unfold load. simpl. by rewrite E.
Qed.

Lemma lifetime_construct_inv this (c d : std_function Callable) w w' :
  lifetime_construct this c d w = Some (tt, w') →
  lifetime_hooks w !! this = None ∧
  w' = after_guarded_call (InvokeCreate this) c
         (with_lifetime_hooks (<[this := {| on_destroy_ := d |}]> (lifetime_hooks w)) w).
Proof.
  destruct (lifetime_hooks w !! this) as [o|] eqn:E.
  - unfold lifetime_construct, bind, emplace_lifetime. by rewrite E.
  - rewrite (lifetime_construct_run _ _ _ _ E). by intros [= <-].
Qed.

Lemma lifetime_copy_construct_inv this other w w' :
  lifetime_copy_construct this other w = Some (tt, w') →
  ∃ o, lifetime_hooks w !! this = None ∧ lifetime_hooks w !! other = Some o ∧
    w' = with_lifetime_hooks (<[this := o]> (lifetime_hooks w)) w.
Proof.
  destruct (lifetime_hooks w !! other) as [o|] eqn:EO.
  - destruct (lifetime_hooks w !! this) as [o'|] eqn:E.
    + unfold lifetime_copy_construct, bind, load_on_destroy_, emplace_lifetime.
      by rewrite EO, E.
    + rewrite (lifetime_copy_construct_run _ _ _ _ E EO). intros [= <-]. by exists o.
  - unfold lifetime_copy_construct, bind, load_on_destroy_. by rewrite EO.
Qed.

Lemma lifetime_copy_assign_inv this other w r w' :
  lifetime_copy_assign this other w = Some (r, w') →
  r = this ∧
  ∃ o o', lifetime_hooks w !! this = Some o' ∧ lifetime_hooks w !! other = Some o ∧
    w' = with_lifetime_hooks (<[this := o]> (lifetime_hooks w)) w.
Proof.
  destruct (lifetime_hooks w !! other) as [o|] eqn:EO.
  - destruct (lifetime_hooks w !! this) as [o'|] eqn:E.
    + rewrite (lifetime_copy_assign_run _ _ _ _ _ E EO). intros [= <- <-].
      split; [done|]. by exists o, o'.
    + unfold lifetime_copy_assign, bind, load_on_destroy_, store_on_destroy_.
      by rewrite EO, E.
  - unfold lifetime_copy_assign, bind, load_on_destroy_. by rewrite EO.
Qed.

Lemma lifetime_destroy_inv this w w' :
  lifetime_destroy this w = Some (tt, w') →
  ∃ o, lifetime_hooks w !! this = Some o ∧
    w' = with_lifetime_hooks (delete this (lifetime_hooks w))
           (after_guarded_call (InvokeDestroy this) (on_destroy_ o) w).
Proof.
  destruct (lifetime_hooks w !! this) as [o|] eqn:E.
  - rewrite (lifetime_destroy_run _ _ _ E). intros [= <-]. by exists o.
  - by rewrite (lifetime_destroy_dead _ _ E).
Qed.

(** One special member function of [SpecialMemberHooks], whichever it is:
    its effect on the three parts of the world it can reach. *)
Ltac invert_run H :=
  match type of H with
  | run ?t _ _ _ = _ => destruct t; simpl in H
  end;
  [ apply default_construct_inv in H as [? ->]
  | apply copy_construct_inv in H as (? & ? & ? & ->)
  | apply move_construct_inv in H as (? & ? & ? & ->)
  | let HA := fresh "HA" in
    unfold bind in H;
    destruct (copy_assign _ _ _) as [[? ?]|] eqn:HA; [|done];
    injection H as <-;
    apply copy_assign_inv in HA as [-> [[<- ->]|(? & ? & ? & ? & ? & ->)]]
  | let HA := fresh "HA" in
    unfold bind in H;
    destruct (move_assign _ _ _) as [[? ?]|] eqn:HA; [|done];
    injection H as <-;
    apply move_assign_inv in HA as [-> [[<- ->]|(? & ? & ? & ? & ? & ->)]]
  | apply destroy_inv in H as (? & ? & ->) ].


Lemma run_trace t this other w w' :
  run t this other w = Some (tt, w') →
  ∃ f, trace w' = trace w ++ Debug (message t) :: fired (Invoke this (slot_of t)) f
       ∧ (t = DefaultConstruct → f = None).
Proof.
  intros H. invert_run H; unfold after_fire; simpl;
    rewrite ?trace_after_guarded_call; simpl;
    try (by exists None);
    rewrite <-(assoc_L (++)); eexists; (split; [done|done]).
Qed.

Lemma exec_cons (st : Step Callable) p w w' :
  exec (st :: p) w = Some (tt, w') →
  ∃ w1, step st w = Some (tt, w1) ∧ exec p w1 = Some (tt, w').
Proof.
  simpl. unfold bind. destruct (step st w) as [[[] w1]|]; [|done]. eauto.
Qed.

Lemma debug_lines_app (tr tr' : list Event) :
  debug_lines (tr ++ tr') = debug_lines tr + debug_lines tr'.
Proof. unfold debug_lines. by rewrite filter_app, length_app. Qed.

Lemma hook_calls_app (tr tr' : list Event) :
  hook_calls (tr ++ tr') = hook_calls tr + hook_calls tr'.
Proof. unfold hook_calls. by rewrite filter_app, length_app. Qed.

Lemma insert_pair_over {V} (m : gmap addr V) this other (x y z : V) :
  this ≠ other →
  <[this := x]> (<[other := y]> (<[this := z]> m)) = <[this := x]> (<[other := y]> m).
Proof.
  intros Hne. apply map_eq. intros i.
  destruct (decide (i = this)) as [->|]; [by rewrite !lookup_insert_eq|].
  destruct (decide (i = other)) as [->|]; by simplify_map_eq.
Qed.

(** ** SpecialMemberHooks: one transition *)


(** X2.  Each special member function changes which objects are alive by
    exactly one or not at all: a constructor adds [this], which was not
    alive; the destructor removes [this], which was; an assignment keeps
    the set of live objects. *)
Theorem transition_liveness t this other w w' :
  run t this other w = Some (tt, w') →
  match t with
  | DefaultConstruct | CopyConstruct | MoveConstruct =>
      (this ∉ dom (hooks w)) ∧ dom (hooks w') = {[this]} ∪ dom (hooks w)
  | CopyAssign | MoveAssign => dom (hooks w') = dom (hooks w)
  | Destroy =>
      (this ∈ dom (hooks w)) ∧ dom (hooks w') = dom (hooks w) ∖ {[this]}
  end.
Proof.
  intros H. invert_run H; unfold after_fire; simpl;
    rewrite ?hooks_after_guarded_call; simpl.
  - split; [by apply not_elem_of_dom_2|apply dom_insert_L].
  - split; [by apply not_elem_of_dom_2|apply dom_insert_L].
  - split; [by apply not_elem_of_dom_2|].
    by rewrite dom_insert_L, dom_insert_lookup_L by eauto.
  - done.
  - by rewrite dom_insert_lookup_L by eauto.
  - done.
  - rewrite dom_insert_lookup_L by (rewrite lookup_insert_ne by done; eauto).
    by rewrite dom_insert_lookup_L by eauto.
  - split; [by eapply elem_of_dom_2|apply dom_delete_L].
Qed.

(** X3.  An assignment between distinct objects overwrites the target
    before anything is called: the outcome is the same whatever the target
    held, so a hook installed on the target beforehand, its own
    [on_copy_assign] or [on_move_assign] included, is lost without being
    called. *)
Theorem assignment_ignores_target this other w S T T' :
  this ≠ other → hooks w !! other = Some S →
  copy_assign this other (with_hooks (<[this := T]> (hooks w)) w)
  = copy_assign this other (with_hooks (<[this := T']> (hooks w)) w) ∧
  move_assign this other (with_hooks (<[this := T]> (hooks w)) w)
  = move_assign this other (with_hooks (<[this := T']> (hooks w)) w).
Proof.
  intros Hne ES.
  assert (∀ X, hooks (with_hooks (<[this := X]> (hooks w)) w) !! other = Some S) as HS.
  { intros X. simpl. by rewrite lookup_insert_ne. }
  assert (∀ X, hooks (with_hooks (<[this := X]> (hooks w)) w) !! this = Some X) as HT.
  { intros X. simpl. apply lookup_insert_eq. }
  split.
  - rewrite (copy_assign_distinct _ _ _ _ _ Hne (HS T) (HT T)).
    rewrite (copy_assign_distinct _ _ _ _ _ Hne (HS T') (HT T')).
    simpl. by rewrite !insert_insert_eq.
  - rewrite (move_assign_distinct _ _ _ _ _ Hne (HS T) (HT T)).
    rewrite (move_assign_distinct _ _ _ _ _ Hne (HS T') (HT T')).
    simpl. by rewrite !insert_pair_over by done.
Qed.

(** X4.  Where a hook has to be installed for a transition to call it: on
    the object itself for the destructor, on the source for the copy and
    move operations.  Installed there just before the transition, the
    target [f] is the one called, whatever the member held before. *)
Theorem installed_hook_fires t this other w f :
  t ≠ DefaultConstruct → this ≠ other → ready t this other w →
  let holder := match t with Destroy => this | _ => other end in
  ∃ w', (store holder (slot_of t) f >> run t this other) w = Some (tt, w') ∧
    trace w' = trace w ++ Debug (message t) :: fired (Invoke this (slot_of t)) f ∧
    match f with
    | Some g => ∃ u, trace u = trace w' ∧ env u = env w ∧ env w' = call g u
    | None => env w' = env w
    end.
Proof.
  intros Ht Hne Hr holder.
  destruct t; simpl in Hr, holder; subst holder; [done|..].
  - destruct Hr as [E [S ES]].
    rewrite (bind_run _ _ _ _ _ (store_run _ _ f _ _ ES)). simpl.
    erewrite copy_construct_run; cycle 1.
    { simpl. by rewrite lookup_insert_ne. }
    { simpl. apply lookup_insert_eq. }
    eexists; split; [done|]. unfold after_fire.
    rewrite trace_after_guarded_call. simpl. rewrite <-(assoc_L (++)).
    split; [done|]. destruct f as [g|]; simpl; [|done].
    eexists (log _ (log _ (with_hooks _ w))). simpl.
    by rewrite <-(assoc_L (++)).
  - destruct Hr as [E [S ES]].
    rewrite (bind_run _ _ _ _ _ (store_run _ _ f _ _ ES)). simpl.
    erewrite move_construct_run; cycle 1.
    { simpl. by rewrite lookup_insert_ne. }
    { simpl. apply lookup_insert_eq. }
    eexists; split; [done|]. unfold after_fire.
    rewrite trace_after_guarded_call. simpl. rewrite <-(assoc_L (++)).
    split; [done|]. destruct f as [g|]; simpl; [|done].
    eexists (log _ (log _ (with_hooks _ w))). simpl.
    by rewrite <-(assoc_L (++)).
  - destruct Hr as [[T ET] [S ES]].
    rewrite (bind_run _ _ _ _ _ (store_run _ _ f _ _ ES)). simpl.
    unfold bind. erewrite copy_assign_distinct; [|done|simpl..]; cycle 1.
    { apply lookup_insert_eq. }
    { rewrite lookup_insert_ne by done. exact ET. }
    eexists; split; [done|]. unfold after_fire.
    rewrite trace_after_guarded_call. simpl. rewrite <-(assoc_L (++)).
    split; [done|]. destruct f as [g|]; simpl; [|done].
    eexists (log _ (with_hooks _ (log _ w))). simpl.
    by rewrite <-(assoc_L (++)).
  - destruct Hr as [[T ET] [S ES]].
    rewrite (bind_run _ _ _ _ _ (store_run _ _ f _ _ ES)). simpl.
    unfold bind. erewrite move_assign_distinct; [|done|simpl..]; cycle 1.
    { apply lookup_insert_eq. }
    { rewrite lookup_insert_ne by done. exact ET. }
    eexists; split; [done|]. unfold after_fire.
    rewrite trace_after_guarded_call. simpl. rewrite <-(assoc_L (++)).
    split; [done|]. destruct f as [g|]; simpl; [|done].
    eexists (log _ (with_hooks _ (log _ w))). simpl.
    by rewrite <-(assoc_L (++)).
  - destruct Hr as [h E].
    rewrite (bind_run _ _ _ _ _ (store_run _ _ f _ _ E)). simpl.
    erewrite destroy_run; cycle 1.
    { simpl. apply lookup_insert_eq. }
    eexists; split; [done|]. unfold after_fire. simpl.
    rewrite trace_after_guarded_call. simpl. rewrite <-(assoc_L (++)).
    split; [done|]. destruct f as [g|]; simpl; [|done].
    eexists (log _ (log _ (with_hooks _ w))). simpl.
    by rewrite <-(assoc_L (++)).
Qed.

(** ** SpecialMemberHooks: two transitions in a row *)

(** X5.  A temporary copy, made and at once destroyed, leaves the store as
    it found it and runs the source's hooks on the way: [on_copy_construct]
    when the copy is made, [on_destroy] when it goes, in that order, each
    at most once and each only if the source holds it. *)
Theorem copy_then_destroy_restores this other w S :
  hooks w !! this = None → hooks w !! other = Some S →
  ∃ w', (copy_construct this other >> destroy this) w = Some (tt, w') ∧
    hooks w' = hooks w ∧ lifetime_hooks w' = lifetime_hooks w ∧
    trace w' = trace w
               ++ Debug (message CopyConstruct)
                  :: fired (Invoke this OnCopyConstruct) (on_copy_construct S)
               ++ Debug (message Destroy)
                  :: fired (Invoke this OnDestroy) (on_destroy S).
Proof.
  intros E ES.
  rewrite (bind_run _ _ _ _ _ (copy_construct_run _ _ _ _ E ES)).
  erewrite destroy_run; cycle 1.
  { unfold after_fire. rewrite hooks_after_guarded_call. simpl.
    apply lookup_insert_eq. }
  eexists; split; [done|]. unfold after_fire. simpl.
  rewrite lifetime_hooks_after_guarded_call. simpl.
  rewrite lifetime_hooks_after_guarded_call, hooks_after_guarded_call. simpl.
  rewrite (delete_insert_id _ _ _ E).
  repeat split.
  rewrite !trace_after_guarded_call. simpl.
  rewrite trace_after_guarded_call. simpl.
  by rewrite <-!(assoc_L (++)).
Qed.

(** X6.  Hooks travel with copies: after copying [a] to [b] and then
    copying either of the two to [c], all three hold the same six members,
    and the [on_copy_construct] they share has been called once for each
    copy made. *)
Theorem copy_of_copy_keeps_hooks a b c src w S :
  hooks w !! a = Some S → hooks w !! b = None → hooks w !! c = None → b ≠ c →
  src = a ∨ src = b →
  ∃ w', (copy_construct b a >> copy_construct c src) w = Some (tt, w') ∧
    hooks w' !! a = Some S ∧ hooks w' !! b = Some S ∧ hooks w' !! c = Some S ∧
    trace w' = trace w
               ++ Debug (message CopyConstruct)
                  :: fired (Invoke b OnCopyConstruct) (on_copy_construct S)
               ++ Debug (message CopyConstruct)
                  :: fired (Invoke c OnCopyConstruct) (on_copy_construct S).
Proof.
  intros Ea Eb Ec Hbc Hsrc.
  assert (a ≠ b) as Hab by congruence.
  assert (a ≠ c) as Hac by congruence.
  rewrite (bind_run _ _ _ _ _ (copy_construct_run _ _ _ _ Eb Ea)).
  erewrite (copy_construct_run c src _ S); cycle 1.
  { unfold after_fire. rewrite hooks_after_guarded_call. simpl.
    by rewrite lookup_insert_ne. }
  { unfold after_fire. rewrite hooks_after_guarded_call. simpl.
    destruct Hsrc as [->| ->];
      [by rewrite lookup_insert_ne|apply lookup_insert_eq]. }
  eexists; split; [done|]. unfold after_fire.
  rewrite !hooks_after_guarded_call. simpl.
  rewrite ?hooks_after_guarded_call. simpl.
  rewrite !trace_after_guarded_call. simpl.
  rewrite ?trace_after_guarded_call. simpl.
  repeat split.
  - by rewrite !lookup_insert_ne by done.
  - by rewrite lookup_insert_ne, lookup_insert_eq by done.
  - apply lookup_insert_eq.
  - by rewrite <-!(assoc_L (++)).
Qed.

(** X7.  With a standard library that leaves a moved-from [std::function]
    empty, a move hands the hooks over for good: the source is left like a
    default-constructed object, and destroying it writes its debug line and
    calls nothing, while the target keeps the six members. *)
Theorem emptied_source_destructs_silently t this other w S :
  (∀ f, moved_from f = None) →
  t = MoveConstruct ∨ t = MoveAssign → this ≠ other →
  ready t this other w → hooks w !! other = Some S →
  ∃ w1 w', run t this other w = Some (tt, w1) ∧
    hooks w1 !! other = Some default_initialized ∧
    destroy other w1 = Some (tt, w') ∧
    trace w' = trace w1 ++ [Debug (message Destroy)] ∧
    env w' = env w1 ∧
    hooks w' !! this = Some S ∧ hooks w' !! other = None.
Proof.
  intros Hmf Ht Hne Hr ES.
  assert (moved_hooks S = default_initialized) as HS.
  { unfold moved_hooks, default_initialized. by rewrite !Hmf. }
  destruct Ht as [-> | ->]; simpl in Hr.
  - destruct Hr as [E _]. simpl.
    rewrite (move_construct_run _ _ _ _ E ES), HS.
    eexists _, _. split; [done|]. unfold after_fire.
    rewrite hooks_after_guarded_call. simpl.
    rewrite lookup_insert_ne, lookup_insert_eq by done. split; [done|].
    erewrite destroy_run; cycle 1.
    { rewrite hooks_after_guarded_call. simpl.
      by rewrite lookup_insert_ne, lookup_insert_eq. }
    split; [done|]. simpl. rewrite hooks_after_guarded_call. simpl.
    by rewrite lookup_delete_ne, lookup_insert_eq, lookup_delete_eq.
  - destruct Hr as [[T ET] _]. simpl. unfold bind.
    rewrite (move_assign_distinct _ _ _ _ _ Hne ES ET), HS.
    eexists _, _. split; [done|]. unfold after_fire.
    rewrite hooks_after_guarded_call. simpl.
    rewrite lookup_insert_ne, lookup_insert_eq by done. split; [done|].
    erewrite destroy_run; cycle 1.
    { rewrite hooks_after_guarded_call. simpl.
      by rewrite lookup_insert_ne, lookup_insert_eq. }
    split; [done|]. simpl. rewrite hooks_after_guarded_call. simpl.
    by rewrite lookup_delete_ne, lookup_insert_eq, lookup_delete_eq.
Qed.

(** ** Whole programs *)

Lemma store_inv a s f w w' :
  store a s f w = Some (tt, w') →
  ∃ h, hooks w !! a = Some h ∧ w' = with_hooks (<[a := set_slot s f h]> (hooks w)) w.
Proof.
  unfold store. destruct (hooks w !! a) as [h|]; [|done]. intros [= <-]. eauto.
Qed.

Lemma step_trace (st : Step Callable) w w' :
  step st w = Some (tt, w') →
  match st with
  | Do t this other =>
      ∃ f, trace w' = trace w ++ Debug (message t) :: fired (Invoke this (slot_of t)) f
           ∧ (t = DefaultConstruct → f = None)
  | Assign _ _ _ | LCopy _ _ | LAssign _ _ => trace w' = trace w
  | LConstruct this c _ => trace w' = trace w ++ fired (InvokeCreate this) c
  | LDestroy this => ∃ f, trace w' = trace w ++ fired (InvokeDestroy this) f
  end.
Proof.
  destruct st as [t this other|a s f|this c d|this other|this other|this]; simpl; intros H.
  - exact (run_trace _ _ _ _ _ H).
  - by apply store_inv in H as (h & _ & ->).
  - apply lifetime_construct_inv in H as [_ ->].
    by rewrite trace_after_guarded_call.
  - by apply lifetime_copy_construct_inv in H as (o & _ & _ & ->).
  - unfold bind in H.
    destruct (lifetime_copy_assign this other w) as [[r w1]|] eqn:HA; [|done].
    injection H as <-.
    by apply lifetime_copy_assign_inv in HA as [_ (o & o' & _ & _ & ->)].
  - apply lifetime_destroy_inv in H as (o & _ & ->). simpl.
    rewrite trace_after_guarded_call. eauto.
Qed.

Lemma transitions_in_cons (st : Step Callable) p :
  transitions_in (st :: p) = (if is_transition st then 1 else 0) + transitions_in p.
Proof.
  unfold transitions_in. rewrite filter_cons.
  destruct (is_transition st); by case_decide.
Qed.

Lemma constructions_of_cons a (st : Step Callable) p :
  constructions_of a (st :: p)
  = (if is_construction_of a st then 1 else 0) + constructions_of a p.
Proof.
  unfold constructions_of. rewrite filter_cons.
  destruct (is_construction_of a st); by case_decide.
Qed.

Lemma destructions_of_cons a (st : Step Callable) p :
  destructions_of a (st :: p)
  = (if is_destruction_of a st then 1 else 0) + destructions_of a p.
Proof.
  unfold destructions_of. rewrite filter_cons.
  destruct (is_destruction_of a st); by case_decide.
Qed.

(** X8.  [on_construct] is never called: whatever a program does with
    hook objects — any sequence of special member functions and of
    assignments to their members, [on_construct] included — no call of an
    [on_construct] member is ever added to the trace. *)
Theorem on_construct_never_called p w w' :
  exec p w = Some (tt, w') →
  ∃ evs, trace w' = trace w ++ evs ∧ ∀ a, Invoke a OnConstruct ∉ evs.
Proof.
  revert w. induction p as [|st p IH]; intros w H.
  - injection H as <-. exists []. split; [by rewrite app_nil_r|].
    intros a. apply not_elem_of_nil.
  - apply exec_cons in H as (w1 & H1 & H2).
    destruct (IH _ H2) as (evs & Htr & Hno).
    assert (∃ evs1, trace w1 = trace w ++ evs1 ∧ ∀ a, Invoke a OnConstruct ∉ evs1)
      as (evs1 & Htr1 & Hno1).
    { apply step_trace in H1.
      destruct st as [t this other|a0 s0 f0|this c d|this other|this other|this].
      - destruct H1 as (f & -> & Hf). eexists; split; [done|].
        intros a Hin. apply elem_of_cons in Hin as [?|Hin]; [done|].
        unfold fired in Hin. destruct f as [g|]; simpl in Hin;
          [|by apply not_elem_of_nil in Hin].
        apply list_elem_of_singleton in Hin. injection Hin as -> Hs.
        destruct t; try done. by specialize (Hf eq_refl).
      - exists []. split; [by rewrite app_nil_r|]. intros a. apply not_elem_of_nil.
      - eexists; split; [done|]. intros a Hin.
        unfold fired in Hin. destruct c; simpl in Hin;
          [by apply list_elem_of_singleton in Hin|by apply not_elem_of_nil in Hin].
      - exists []. split; [by rewrite app_nil_r|]. intros a. apply not_elem_of_nil.
      - exists []. split; [by rewrite app_nil_r|]. intros a. apply not_elem_of_nil.
      - destruct H1 as (f & ->). eexists; split; [done|]. intros a Hin.
        unfold fired in Hin. destruct f; simpl in Hin;
          [by apply list_elem_of_singleton in Hin|by apply not_elem_of_nil in Hin]. }
    exists (evs1 ++ evs). split.
    + by rewrite Htr, Htr1, (assoc_L (++)).
    + intros a Hin. apply elem_of_app in Hin as [Hin|Hin];
        [by apply (Hno1 a)|by apply (Hno a)].
Qed.

(** X9.  The log has exactly one debug line for each special member
    function of [SpecialMemberHooks] a program runs, whether or not a hook
    was called, and none for anything else; and no more hooks are called
    than such functions are run. *)
Theorem one_debug_line_per_transition p w w' :
  exec p w = Some (tt, w') →
  debug_lines (trace w') = debug_lines (trace w) + transitions_in p ∧
  (hook_calls (trace w') ≤ hook_calls (trace w) + transitions_in p)%nat.
Proof.
  revert w. induction p as [|st p IH]; intros w H.
  - injection H as <-. unfold transitions_in. simpl. lia.
  - apply exec_cons in H as (w1 & H1 & H2).
    destruct (IH _ H2) as [Hd Hc]. rewrite transitions_in_cons.
    apply step_trace in H1.
    destruct st as [t this other|a0 s0 f0|this c d|this other|this other|this]; simpl.
    + destruct H1 as (f & H1 & _).
      rewrite H1, debug_lines_app in Hd. rewrite H1, hook_calls_app in Hc.
      assert (debug_lines (Debug (message t) :: fired (Invoke this (slot_of t)) f) = 1)
        as Hz by (by destruct f).
      assert (hook_calls (Debug (message t) :: fired (Invoke this (slot_of t)) f) ≤ 1)%nat
        as Hz' by (destruct f; unfold hook_calls; simpl; lia).
      lia.
    + rewrite H1 in Hd, Hc. lia.
    + rewrite H1, debug_lines_app in Hd. rewrite H1, hook_calls_app in Hc.
      assert (debug_lines (fired (InvokeCreate this) c) = 0) as Hz by (by destruct c).
      assert (hook_calls (fired (InvokeCreate this) c) = 0) as Hz' by (by destruct c).
      lia.
    + rewrite H1 in Hd, Hc. lia.
    + rewrite H1 in Hd, Hc. lia.
    + destruct H1 as (f & H1).
      rewrite H1, debug_lines_app in Hd. rewrite H1, hook_calls_app in Hc.
      assert (debug_lines (fired (InvokeDestroy this) f) = 0) as Hz by (by destruct f).
      assert (hook_calls (fired (InvokeDestroy this) f) = 0) as Hz' by (by destruct f).
      lia.
Qed.

(** X10.  Over any program, the destroy-callback of the
    [ObjectLifetimeHook] at an address is called at most once for each
    destruction at that address, and the create-callback at most once for
    each construction there: copies, assignments and everything done to
    [SpecialMemberHooks] objects add no such call. *)
Theorem lifetime_calls_bounded p w w' a :
  exec p w = Some (tt, w') →
  (destroy_calls a (trace w') ≤ destroy_calls a (trace w) + destructions_of a p)%nat ∧
  (create_calls a (trace w') ≤ create_calls a (trace w) + constructions_of a p)%nat.
Proof.
  revert w. induction p as [|st p IH]; intros w H.
  - injection H as <-. lia.
  - apply exec_cons in H as (w1 & H1 & H2).
    destruct (IH _ H2) as [Hd Hc].
    rewrite destructions_of_cons, constructions_of_cons.
    apply step_trace in H1.
    destruct st as [t this other|a0 s0 f0|this c d|this other|this other|this]; simpl.
    + destruct H1 as (f & H1 & _).
      rewrite H1, destroy_calls_app in Hd. rewrite H1, create_calls_app in Hc.
      assert (destroy_calls a (Debug (message t) :: fired (Invoke this (slot_of t)) f) = 0)
        as Hz by (by destruct f).
      assert (create_calls a (Debug (message t) :: fired (Invoke this (slot_of t)) f) = 0)
        as Hz' by (by destruct f).
      lia.
    + rewrite H1 in Hd, Hc. lia.
    + rewrite H1, destroy_calls_app in Hd. rewrite H1, create_calls_app in Hc.
      assert (destroy_calls a (fired (InvokeCreate this) c) = 0) as Hz by (by destruct c).
      assert (create_calls a (fired (InvokeCreate this) c)
              ≤ if bool_decide (this = a) then 1 else 0)%nat as Hz'.
      { destruct c; simpl; [|case_bool_decide; unfold create_calls; simpl; lia].
        unfold fired. simpl. rewrite create_calls_one.
        case_decide; case_bool_decide; try lia. congruence. }
      lia.
    + rewrite H1 in Hd, Hc. lia.
    + rewrite H1 in Hd, Hc. lia.
    + destruct H1 as (f & H1).
      rewrite H1, destroy_calls_app in Hd. rewrite H1, create_calls_app in Hc.
      assert (create_calls a (fired (InvokeDestroy this) f) = 0) as Hz by (by destruct f).
      assert (destroy_calls a (fired (InvokeDestroy this) f)
              ≤ if bool_decide (this = a) then 1 else 0)%nat as Hz'.
      { destruct f; simpl; [|case_bool_decide; unfold destroy_calls; simpl; lia].
        unfold fired. simpl. rewrite destroy_calls_one.
        case_decide; case_bool_decide; try lia. congruence. }
      lia.
Qed.

(** ** ObjectLifetimeHook: operations in a row *)

(** X11.  An [ObjectLifetimeHook] brackets its scope: constructed and then
    destroyed, it calls the create-callback first and the destroy-callback
    last, each if present, writes nothing to the logger, and leaves both
    stores as they were. *)
Theorem lifetime_scope_round_trip this (c d : std_function Callable) w :
  lifetime_hooks w !! this = None →
  ∃ w', (lifetime_construct this c d >> lifetime_destroy this) w = Some (tt, w') ∧
    lifetime_hooks w' = lifetime_hooks w ∧ hooks w' = hooks w ∧
    trace w' = trace w ++ fired (InvokeCreate this) c ++ fired (InvokeDestroy this) d.
Proof.
  intros E.
  rewrite (bind_run _ _ _ _ _ (lifetime_construct_run _ c d _ E)).
  erewrite lifetime_destroy_run; cycle 1.
  { rewrite lifetime_hooks_after_guarded_call. simpl. apply lookup_insert_eq. }
  eexists; split; [done|]. simpl.
  rewrite lifetime_hooks_after_guarded_call, !hooks_after_guarded_call. simpl.
  rewrite (delete_insert_id _ _ _ E).
  repeat split.
  rewrite !trace_after_guarded_call. simpl.
  by rewrite <-(assoc_L (++)).
Qed.

(** X12.  The class does not forbid copying, and a copy shares the
    destroy-callback: after copying [a] to [b], destroying the two calls
    the one callback twice, once for each object. *)
Theorem lifetime_copy_shares_callback a b w o :
  lifetime_hooks w !! a = Some o → lifetime_hooks w !! b = None →
  ∃ w', (lifetime_copy_construct b a >> lifetime_destroy a >> lifetime_destroy b) w
        = Some (tt, w') ∧
    lifetime_hooks w' = delete a (lifetime_hooks w) ∧
    trace w' = trace w ++ fired (InvokeDestroy a) (on_destroy_ o)
                       ++ fired (InvokeDestroy b) (on_destroy_ o) ∧
    match on_destroy_ o with
    | Some g => ∃ u1 u2, env u1 = env w ∧ env u2 = call g u1 ∧ env w' = call g u2
    | None => env w' = env w
    end.
Proof.
  intros Ea Eb. assert (a ≠ b) as Hab by congruence.
  rewrite (bind_run _ _ _ _ _ (lifetime_copy_construct_run _ _ _ _ Eb Ea)).
  erewrite bind_run; cycle 1.
  { apply (lifetime_destroy_run _ _ o). simpl. by rewrite lookup_insert_ne. }
  erewrite (lifetime_destroy_run b _ o); cycle 1.
  { simpl. rewrite lookup_delete_ne by done. apply lookup_insert_eq. }
  eexists; split; [done|]. simpl. split.
  { rewrite (delete_insert_ne _ a b) by done.
    by rewrite delete_insert_eq, (delete_id _ b)
      by (by rewrite lookup_delete_ne). }
  destruct (on_destroy_ o) as [g|]; simpl.
  - rewrite <-(assoc_L (++)). split; [done|].
    set (w1 := with_lifetime_hooks (<[b := o]> (lifetime_hooks w)) w).
    exists (log (InvokeDestroy a) w1),
           (log (InvokeDestroy b)
              (with_lifetime_hooks (delete a (lifetime_hooks w1))
                 (after_call (InvokeDestroy a) g w1))).
    done.
  - by rewrite app_nil_r.
Qed.

(** X13.  The class does not forbid assignment either, and an assignment
    replaces the destroy-callback without calling the one it replaces:
    after [a = b], destroying [a] calls what [b] held, and what [a] held
    before is never called. *)
Theorem lifetime_assign_drops_callback a b w o o' :
  lifetime_hooks w !! a = Some o' → lifetime_hooks w !! b = Some o →
  ∃ w', (lifetime_copy_assign a b >> lifetime_destroy a) w = Some (tt, w') ∧
    lifetime_hooks w' = delete a (lifetime_hooks w) ∧
    trace w' = trace w ++ fired (InvokeDestroy a) (on_destroy_ o) ∧
    match on_destroy_ o with
    | Some g => ∃ u, trace u = trace w' ∧ env u = env w ∧ env w' = call g u
    | None => env w' = env w
    end.
Proof.
  intros Ea Eb.
  rewrite (bind_run _ _ _ _ _ (lifetime_copy_assign_run _ _ _ _ _ Ea Eb)).
  erewrite (lifetime_destroy_run a _ o); cycle 1.
  { simpl. apply lookup_insert_eq. }
  eexists; split; [done|]. simpl. split; [apply delete_insert_eq|].
  destruct (on_destroy_ o) as [g|]; simpl.
  - split; [done|]. by eexists (log _ (with_lifetime_hooks _ w)).
  - by rewrite app_nil_r.
Qed.

End More.

(** * The further results at concrete inputs *)


Lemma transition_liveness_witness :
  run Destroy 1 1 two_objects = Some (tt, outcome (run Destroy 1 1 two_objects)) ∧
  (1 ∈ dom (hooks two_objects)) ∧
  dom (hooks (outcome (run Destroy 1 1 two_objects))) = dom (hooks two_objects) ∖ {[1]}.
Proof.
  assert (run Destroy 1 1 two_objects = Some (tt, outcome (run Destroy 1 1 two_objects)))
    as H by (vm_compute; reflexivity).
  split; [exact H|].
  exact (transition_liveness Destroy 1 1 two_objects _ H).
Defined.

Lemma assignment_ignores_target_witness :
  2 ≠ 1 ∧ hooks one_object !! 1 = Some sample ∧
  copy_assign 2 1 (with_hooks (<[2 := default_initialized]> (hooks one_object)) one_object)
  = copy_assign 2 1 (with_hooks (<[2 := sample]> (hooks one_object)) one_object) ∧
  move_assign 2 1 (with_hooks (<[2 := default_initialized]> (hooks one_object)) one_object)
  = move_assign 2 1 (with_hooks (<[2 := sample]> (hooks one_object)) one_object).
Proof.
  assert (2 ≠ 1) as Hne by lia.
  assert (hooks one_object !! 1 = Some sample) as H1 by (vm_compute; reflexivity).
  split; [exact Hne|]. split; [exact H1|].
  exact (assignment_ignores_target 2 1 one_object sample default_initialized sample Hne H1).
Defined.

Lemma installed_hook_fires_witness :
  CopyAssign ≠ DefaultConstruct ∧ 2 ≠ 1 ∧ ready CopyAssign 2 1 two_objects ∧
  ∃ w', (store 1 (slot_of CopyAssign) (Some (Bump 7)) >> run CopyAssign 2 1)%hook two_objects
        = Some (tt, w') ∧
    trace w' = trace two_objects
               ++ Debug (message CopyAssign)
                  :: fired (Invoke 2 (slot_of CopyAssign)) (Some (Bump 7)) ∧
    ∃ u, trace u = trace w' ∧ env u = env two_objects ∧ env w' = call (Bump 7) u.
Proof.
  assert (CopyAssign ≠ DefaultConstruct) as Ht by discriminate.
  assert (2 ≠ 1) as Hne by lia.
  assert (ready CopyAssign 2 1 two_objects) as Hr by (split; vm_compute; eauto).
  split; [exact Ht|]. split; [exact Hne|]. split; [exact Hr|].
  exact (installed_hook_fires CopyAssign 2 1 two_objects (Some (Bump 7)) Ht Hne Hr).
Defined.

Lemma copy_then_destroy_restores_witness :
  hooks one_object !! 2 = None ∧ hooks one_object !! 1 = Some sample ∧
  ∃ w', (copy_construct 2 1 >> destroy 2)%hook one_object = Some (tt, w') ∧
    hooks w' = hooks one_object ∧ lifetime_hooks w' = lifetime_hooks one_object ∧
    trace w' = trace one_object
               ++ Debug (message CopyConstruct)
                  :: fired (Invoke 2 OnCopyConstruct) (on_copy_construct sample)
               ++ Debug (message Destroy)
                  :: fired (Invoke 2 OnDestroy) (on_destroy sample).
Proof.
  assert (hooks one_object !! 2 = None) as H2 by (vm_compute; reflexivity).
  assert (hooks one_object !! 1 = Some sample) as H1 by (vm_compute; reflexivity).
  split; [exact H2|]. split; [exact H1|].
  exact (copy_then_destroy_restores 2 1 one_object sample H2 H1).
Defined.

Lemma copy_of_copy_keeps_hooks_witness :
  hooks one_object !! 1 = Some sample ∧ hooks one_object !! 2 = None ∧
  hooks one_object !! 3 = None ∧ 2 ≠ 3 ∧ (2 = 1 ∨ 2 = 2) ∧
  ∃ w', (copy_construct 2 1 >> copy_construct 3 2)%hook one_object = Some (tt, w') ∧
    hooks w' !! 1 = Some sample ∧ hooks w' !! 2 = Some sample ∧
    hooks w' !! 3 = Some sample ∧
    trace w' = trace one_object
               ++ Debug (message CopyConstruct)
                  :: fired (Invoke 2 OnCopyConstruct) (on_copy_construct sample)
               ++ Debug (message CopyConstruct)
                  :: fired (Invoke 3 OnCopyConstruct) (on_copy_construct sample).
Proof.
  assert (hooks one_object !! 1 = Some sample) as H1 by (vm_compute; reflexivity).
  assert (hooks one_object !! 2 = None) as H2 by (vm_compute; reflexivity).
  assert (hooks one_object !! 3 = None) as H3 by (vm_compute; reflexivity).
  assert (2 ≠ 3) as Hne by lia.
  assert (2 = 1 ∨ 2 = 2) as Hsrc by (right; reflexivity).
  split; [exact H1|]. split; [exact H2|]. split; [exact H3|].
  split; [exact Hne|]. split; [exact Hsrc|].
  exact (copy_of_copy_keeps_hooks 1 2 3 2 one_object sample H1 H2 H3 Hne Hsrc).
Defined.

Lemma emptied_source_destructs_silently_witness :
  (∀ f : std_function Action, moved_from f = None) ∧
  (MoveAssign = MoveConstruct ∨ MoveAssign = MoveAssign) ∧ 2 ≠ 1 ∧
  ready MoveAssign 2 1 two_objects ∧ hooks two_objects !! 1 = Some sample ∧
  ∃ w1 w', run MoveAssign 2 1 two_objects = Some (tt, w1) ∧
    hooks w1 !! 1 = Some default_initialized ∧
    destroy 1 w1 = Some (tt, w') ∧
    trace w' = trace w1 ++ [Debug (message Destroy)] ∧
    env w' = env w1 ∧
    hooks w' !! 2 = Some sample ∧ hooks w' !! 1 = None.
Proof.
  assert (∀ f : std_function Action, moved_from f = None) as Hmf
    by (intros f; reflexivity).
  assert (MoveAssign = MoveConstruct ∨ MoveAssign = MoveAssign) as Ht
    by (right; reflexivity).
  assert (2 ≠ 1) as Hne by lia.
  assert (ready MoveAssign 2 1 two_objects) as Hr by (split; vm_compute; eauto).
  assert (hooks two_objects !! 1 = Some sample) as H1 by (vm_compute; reflexivity).
  split; [exact Hmf|]. split; [exact Ht|]. split; [exact Hne|].
  split; [exact Hr|]. split; [exact H1|].
  exact (emptied_source_destructs_silently MoveAssign 2 1 two_objects sample
           Hmf Ht Hne Hr H1).
Defined.

Lemma on_construct_never_called_witness :
  exec sample_program start = Some (tt, outcome (exec sample_program start)) ∧
  ∃ evs, trace (outcome (exec sample_program start)) = trace start ++ evs ∧
         ∀ a, Invoke a OnConstruct ∉ evs.
Proof.
  assert (exec sample_program start = Some (tt, outcome (exec sample_program start)))
    as H by (vm_compute; reflexivity).
  split; [exact H|].
  exact (on_construct_never_called sample_program start _ H).
Defined.

Lemma one_debug_line_per_transition_witness :
  exec sample_program start = Some (tt, outcome (exec sample_program start)) ∧
  debug_lines (trace (outcome (exec sample_program start)))
  = debug_lines (trace start) + transitions_in sample_program ∧
  (hook_calls (trace (outcome (exec sample_program start)))
   ≤ hook_calls (trace start) + transitions_in sample_program)%nat.
Proof.
  assert (exec sample_program start = Some (tt, outcome (exec sample_program start)))
    as H by (vm_compute; reflexivity).
  split; [exact H|].
  exact (one_debug_line_per_transition sample_program start _ H).
Defined.

Lemma lifetime_calls_bounded_witness :
  exec sample_program start = Some (tt, outcome (exec sample_program start)) ∧
  (destroy_calls 5 (trace (outcome (exec sample_program start)))
   ≤ destroy_calls 5 (trace start) + destructions_of 5 sample_program)%nat ∧
  (create_calls 5 (trace (outcome (exec sample_program start)))
   ≤ create_calls 5 (trace start) + constructions_of 5 sample_program)%nat.
Proof.
  assert (exec sample_program start = Some (tt, outcome (exec sample_program start)))
    as H by (vm_compute; reflexivity).
  split; [exact H|].
  exact (lifetime_calls_bounded sample_program start _ 5 H).
Defined.

Lemma lifetime_scope_round_trip_witness :
  lifetime_hooks start !! 5 = None ∧
  ∃ w', (lifetime_construct 5 (Some (Bump 2)) (Some (Bump 3)) >> lifetime_destroy 5)%hook start
        = Some (tt, w') ∧
    lifetime_hooks w' = lifetime_hooks start ∧ hooks w' = hooks start ∧
    trace w' = trace start ++ fired (InvokeCreate 5) (Some (Bump 2))
                           ++ fired (InvokeDestroy 5) (Some (Bump 3)).
Proof.
  assert (lifetime_hooks start !! 5 = None) as H5 by (vm_compute; reflexivity).
  split; [exact H5|].
  exact (lifetime_scope_round_trip 5 (Some (Bump 2)) (Some (Bump 3)) start H5).
Defined.

Lemma lifetime_copy_shares_callback_witness :
  lifetime_hooks one_lifetime_hook !! 5 = Some {| on_destroy_ := Some (Bump 3) |} ∧
  lifetime_hooks one_lifetime_hook !! 6 = None ∧
  ∃ w', (lifetime_copy_construct 6 5 >> lifetime_destroy 5 >> lifetime_destroy 6)%hook
          one_lifetime_hook = Some (tt, w') ∧
    lifetime_hooks w' = delete 5 (lifetime_hooks one_lifetime_hook) ∧
    trace w' = trace one_lifetime_hook ++ fired (InvokeDestroy 5) (Some (Bump 3))
                                       ++ fired (InvokeDestroy 6) (Some (Bump 3)) ∧
    ∃ u1 u2, env u1 = env one_lifetime_hook ∧ env u2 = call (Bump 3) u1 ∧
             env w' = call (Bump 3) u2.
Proof.
  assert (lifetime_hooks one_lifetime_hook !! 5 = Some {| on_destroy_ := Some (Bump 3) |})
    as H5 by (vm_compute; reflexivity).
  assert (lifetime_hooks one_lifetime_hook !! 6 = None) as H6 by (vm_compute; reflexivity).
  split; [exact H5|]. split; [exact H6|].
  exact (lifetime_copy_shares_callback 5 6 one_lifetime_hook _ H5 H6).
Defined.

Lemma lifetime_assign_drops_callback_witness :
  lifetime_hooks two_lifetime_hooks !! 5 = Some {| on_destroy_ := Some (Bump 3) |} ∧
  lifetime_hooks two_lifetime_hooks !! 6 = Some {| on_destroy_ := Some (Bump 4) |} ∧
  ∃ w', (lifetime_copy_assign 5 6 >> lifetime_destroy 5)%hook two_lifetime_hooks
        = Some (tt, w') ∧
    lifetime_hooks w' = delete 5 (lifetime_hooks two_lifetime_hooks) ∧
    trace w' = trace two_lifetime_hooks ++ fired (InvokeDestroy 5) (Some (Bump 4)) ∧
    ∃ u, trace u = trace w' ∧ env u = env two_lifetime_hooks ∧ env w' = call (Bump 4) u.
Proof.
  assert (lifetime_hooks two_lifetime_hooks !! 5 = Some {| on_destroy_ := Some (Bump 3) |})
    as H5 by (vm_compute; reflexivity).
  assert (lifetime_hooks two_lifetime_hooks !! 6 = Some {| on_destroy_ := Some (Bump 4) |})
    as H6 by (vm_compute; reflexivity).
  split; [exact H5|]. split; [exact H6|].
  exact (lifetime_assign_drops_callback 5 6 two_lifetime_hooks _ _ H5 H6).
Defined.
